(** * reconcile.py: the Knot configuration reconciler

    A shallow embedding of [src/reconcile.py] and the properties of its
    reconciliation pipeline: the catalog reader, the configuration
    parser, the synthesizer and the driver [main].

    Text is a list of characters, as Python's text mode yields it: line
    ends are the newline character.  The embedding covers ASCII
    documents: the classes [\w], [\s] and [\S] of Python's [re] are
    given on the ASCII range.  The string literals of the source are
    read as Python reads them, a line break inside a literal being the
    newline character: in the patterns [\s], [\[] and [\]] stay as
    they are and are the escapes of [re]; in the replacement of
    [append_to_list], a literal that is not raw, [\1] is the character
    with code 1; the two adjacent quotes that close the pattern of
    [append_to_list] add nothing to it.  Replacement templates are read
    the way [re] of Python 3.11 reads them.  Printing is left out. *)

From Stdlib Require Import Ascii String Bool Arith Lia List.
Import ListNotations.

(** ** Text *)

Definition text := list ascii.

Definition str (s : string) : text := list_ascii_of_string s.

Arguments str : simpl never.

Definition nl : ascii := ascii_of_nat 10.

Definition text_eqb (a b : text) : bool :=
  if list_eq_dec ascii_dec a b then true else false.

(** [s.startswith(p)], returning what follows the prefix. *)
Fixpoint strip_prefix (p s : text) : option text :=
  match p, s with
  | [], _ => Some s
  | a :: p', b :: s' => if Ascii.eqb a b then strip_prefix p' s' else None
  | _ :: _, [] => None
  end.

(** [p in s] on strings: [p] occurs in [s] as a substring. *)
Fixpoint contains (p s : text) : bool :=
  match strip_prefix p s with
  | Some _ => true
  | None => match s with
            | [] => false
            | _ :: s' => contains p s'
            end
  end.

(** The longest prefix whose characters satisfy [f], and the rest. *)
Fixpoint span (f : ascii -> bool) (s : text) : text * text :=
  match s with
  | [] => ([], [])
  | c :: s' =>
      if f c then let (a, b) := span f s' in (c :: a, b) else ([], s)
  end.

(** ** Character classes of [re] on the ASCII range *)

Definition between (lo hi : nat) (c : ascii) : bool :=
  let n := nat_of_ascii c in (lo <=? n) && (n <=? hi).

(** [\w]: letters, digits and the underscore. *)
Definition is_word (c : ascii) : bool :=
  between 48 57 c || between 65 90 c || between 97 122 c || between 95 95 c.

(** [\s]: tab, newline, vertical tab, form feed, carriage return, the
    four separators 28-31 and the space. *)
Definition is_space (c : ascii) : bool :=
  between 9 13 c || between 28 32 c.

(** [\S] *)
Definition is_nonspace (c : ascii) : bool := negb (is_space c).

(** [[^\]]] *)
Definition not_rbracket (c : ascii) : bool := negb (Ascii.eqb c "]").

(** ** Config Parser: [get_current_remotes_from_config] *)

Module Parser.

(** [\w+:] at the head of [s]: the run of word characters is taken
    greedily; the colon is no word character, so giving back characters
    never helps. *)
Definition word_colon (s : text) : bool :=
  match span is_word s with
  | (_ :: _, c :: _) => Ascii.eqb c ":"
  | _ => false
  end.

(** [$] without MULTILINE: the end of the string, or just before a
    newline that ends the string. *)
Definition at_dollar (s : text) : bool :=
  match s with
  | [] => true
  | [c] => Ascii.eqb c nl
  | _ => false
  end.

(** Group 1 of [(.*?)(\w+:|$)] with DOTALL: the lazy star takes one
    character at a time and stops at the first position where the
    second group matches. *)
Fixpoint lazy_section (s : text) : text :=
  match s with
  | [] => []
  | c :: s' =>
      if word_colon s || at_dollar s then [] else c :: lazy_section s'
  end.

(** [re.search(r'remote:(.*?)(\w+:|$)', content, re.DOTALL)]: the
    leftmost [remote:]; the rest of the pattern matches behind every
    one, at the latest at the end of the string.  The result is
    group 1. *)
Fixpoint search_remote_section (content : text) : option text :=
  match strip_prefix (str "remote:") content with
  | Some rest => Some (lazy_section rest)
  | None => match content with
            | [] => None
            | _ :: content' => search_remote_section content'
            end
  end.

Definition id_marker : text := str "-    id:  ".

(** [-    id:  (\S+)] at the head of [s]: group 1. *)
Definition match_id (s : text) : option text :=
  match strip_prefix id_marker s with
  | Some rest =>
      match fst (span is_nonspace rest) with
      | [] => None
      | tok => Some tok
      end
  | None => None
  end.

(** [re.findall(r'-    id:  (\S+)', s)]: the matches from left to right,
    none overlapping.  [skip] counts the characters of the current match
    that are still to be passed. *)
Fixpoint findall_ids_from (skip : nat) (s : text) : list text :=
  match s with
  | [] => []
  | _ :: s' =>
      match skip with
      | S k => findall_ids_from k s'
      | O =>
          match match_id s with
          | Some tok =>
              tok :: findall_ids_from
                       (length id_marker + length tok - 1) s'
          | None => findall_ids_from 0 s'
          end
      end
  end.

Definition findall_ids (s : text) : list text := findall_ids_from 0 s.

(** [remotes = set(); ...; remotes.update(ids)]: the set of the
    identifiers found, kept as a duplicate-free list. *)
Definition remotes_of_content (content : text) : list text :=
  match search_remote_section content with
  | Some remote_section =>
      nodup (list_eq_dec ascii_dec) (findall_ids remote_section)
  | None => []
  end.

(** The file at KNOT_CONFIG_PATH: [None] when the path does not exist.
    The function returns [None] for Python's [None]. *)
Definition get_current_remotes_from_config (file : option text)
  : option (list text) :=
  match file with
  | None => None
  | Some content => Some (remotes_of_content content)
  end.

End Parser.

(** ** Python dictionaries

    A [dict] keeps its keys in insertion order; assigning to a key that
    is present keeps the key's place and replaces its value. *)

Definition dict := list (text * text).

Definition keys (d : dict) : list text := map fst d.

Fixpoint dict_set (k v : text) (d : dict) : dict :=
  match d with
  | [] => [(k, v)]
  | (k', v') :: d' =>
      if text_eqb k' k then (k, v) :: d' else (k', v') :: dict_set k v d'
  end.

Definition mem (k : text) (s : list text) : bool := existsb (text_eqb k) s.

(** ** Catalog Reader: [get_desired_remotes_from_catalog] *)

Module Catalog.

(** [dns.rdatatype.PTR] *)
Definition PTR : nat := 12.

(** A record set: its type and the text [str(item)] of each record. *)
Record rdataset := { rdtype : nat; items : list text }.

(** A zone as [zone.nodes.items()] yields it: the text [str(name)] of
    each node and the node's [rdatasets]. *)
Definition zone := list (text * list rdataset).

(** [zone_name.split('.')[0]] *)
Fixpoint first_label (zone_name : text) : text :=
  match zone_name with
  | [] => []
  | c :: rest => if Ascii.eqb c "." then [] else c :: first_label rest
  end.

Definition remote_id_of (base_name : text) : text :=
  base_name ++ str "-remote".

Definition fqdn_of (base_name : text) : text :=
  str "site-" ++ base_name ++ str ".dns.internal".

(** The body of the innermost loop: one record of a PTR record set. *)
Definition add_item (desired_remotes : dict) (zone_name : text) : dict :=
  let base_name := first_label zone_name in
  dict_set (remote_id_of base_name) (fqdn_of base_name) desired_remotes.

Definition add_rdataset (desired_remotes : dict) (rds : rdataset) : dict :=
  if rdtype rds =? PTR
  then fold_left add_item (items rds) desired_remotes
  else desired_remotes.

Definition add_node (desired_remotes : dict) (entry : text * list rdataset)
  : dict :=
  let (name, rdatasets) := entry in
  if text_eqb name (str "version") || text_eqb name (str "@")
     || match rdatasets with [] => true | _ => false end
  then desired_remotes
  else fold_left add_rdataset rdatasets desired_remotes.

Definition desired_of_zone (z : zone) : dict := fold_left add_node z [].

(** The function returns the dictionary, or leaves through [exit(0)]
    when the transfer raised. *)
Inductive catalog_result :=
| Desired (desired_remotes : dict)
| Exit (code : nat).

(** [xfr] is the outcome of [dns.zone.from_xfr(dns.query.xfr(...))]:
    [None] when it raises an [Exception]. *)
Definition get_desired_remotes_from_catalog (xfr : option zone)
  : catalog_result :=
  match xfr with
  | Some z => Desired (desired_of_zone z)
  | None => Exit 0
  end.

End Catalog.

(** ** Config Synthesizer: [generate_new_config] *)

Module Synth.

(** [f.readlines()]: the lines of the text, each with its newline. *)
Fixpoint readlines (content : text) : list text :=
  match content with
  | [] => []
  | c :: rest =>
      if Ascii.eqb c nl then [c] :: readlines rest
      else match readlines rest with
           | [] => [[c]]
           | line :: lines => (c :: line) :: lines
           end
  end.

Definition anchor : text := str "remote:".

(** The four lines of [new_block]. *)
Definition new_block (remote_id fqdn : text) : list text :=
  [ str "      - id: " ++ remote_id ++ [nl];
    str "        address: " ++ fqdn
      ++ str "@853 # !!! CHANGE THIS to the site's FQDN !!!" ++ [nl];
    str "        key: xfr-key" ++ [nl];
    str "        quic: on" ++ [nl] ].

(** [l[i:i] = block] *)
Definition slice_insert (i : nat) (block l : list text) : list text :=
  firstn i l ++ block ++ skipn i l.

(** The inner loop over [new_remotes.items()], all at index [i+1]. *)
Definition insert_blocks (i : nat) (new_remotes : dict)
    (new_config_lines : list text) : list text :=
  fold_left
    (fun acc item =>
       slice_insert (i + 1) (new_block (fst item) (snd item)) acc)
    new_remotes new_config_lines.

(** The index of the first line with ["remote:" in line], counted
    from [i]. *)
Fixpoint find_anchor (i : nat) (lines : list text) : option nat :=
  match lines with
  | [] => None
  | line :: rest =>
      if contains anchor line then Some i else find_anchor (S i) rest
  end.

(** Step 1: the loop over [enumerate(lines)] with its [break]. *)
Definition add_remote_blocks (lines : list text) (new_remotes : dict)
  : list text :=
  match find_anchor 0 lines with
  | Some i => insert_blocks i new_remotes lines
  | None => lines
  end.

(** [sep.join(l)] *)
Fixpoint join (sep : text) (l : list text) : text :=
  match l with
  | [] => []
  | [a] => a
  | a :: rest => a ++ sep ++ join sep rest
  end.

(** *** The replacement template

    A replacement is read as a template, as [parse_template] of [re]
    does in Python 3.11: a backslash begins a reference to a group
    ([\1], [\g<1>]; the pattern has the one group that holds the whole
    match, so group 0 and group 1 are the same text), an octal escape,
    one of the escapes [\a \b \f \n \r \t \v \\], or, in front of a
    character that is no letter and no digit, stands for itself
    together with that character.  [None] stands for the exception that
    [re] raises on every other template. *)
Inductive tpl_item := Lit (c : ascii) | Group1.

Definition is_digit (c : ascii) : bool := between 48 57 c.
Definition is_octal (c : ascii) : bool := between 48 55 c.
Definition digit_value (c : ascii) : nat := nat_of_ascii c - 48.
Definition is_ascii_letter (c : ascii) : bool :=
  between 65 90 c || between 97 122 c.

(** ESCAPES of a template: [\a \b \f \n \r \t \v] and the doubled
    backslash. *)
Definition escape_char (c : ascii) : option ascii :=
  if Ascii.eqb c "a" then Some (ascii_of_nat 7)
  else if Ascii.eqb c "b" then Some (ascii_of_nat 8)
  else if Ascii.eqb c "f" then Some (ascii_of_nat 12)
  else if Ascii.eqb c "n" then Some (ascii_of_nat 10)
  else if Ascii.eqb c "r" then Some (ascii_of_nat 13)
  else if Ascii.eqb c "t" then Some (ascii_of_nat 9)
  else if Ascii.eqb c "v" then Some (ascii_of_nat 11)
  else if Ascii.eqb c "\" then Some c
  else None.

(** Where the reader stands: in the template, or in the number of a
    [\g<...>], which [int] reads: white space, a sign, digits with
    single underscores between them, white space. *)
Inductive tpl_state :=
| Plain
| NameStart
| NameSigned (negative : bool)
| NameDigits (negative : bool) (value : nat)
| NameUnderscore (negative : bool) (value : nat)
| NameTrail (negative : bool) (value : nat).

(** The pattern has one group: the numbers 0 and 1 name the match. *)
Definition group_ok (negative : bool) (value : nat) : bool :=
  match value with
  | 0 => true
  | 1 => negb negative
  | _ => false
  end.

Definition lit (c : ascii) (k : option (list tpl_item))
  : option (list tpl_item) := option_map (cons (Lit c)) k.

Definition group (k : option (list tpl_item)) : option (list tpl_item) :=
  option_map (cons Group1) k.

Fixpoint parse_template_from (st : tpl_state) (t : text)
  : option (list tpl_item) :=
  match t with
  | [] => match st with Plain => Some [] | _ => None end
  | c :: rest =>
      match st with
      | Plain =>
          if negb (Ascii.eqb c "\") then lit c (parse_template_from Plain rest)
          else
            match rest with
            | [] => None
            | d :: r1 =>
                if Ascii.eqb d "g" then
                  match r1 with
                  | l :: r2 =>
                      if Ascii.eqb l "<" then parse_template_from NameStart r2
                      else None
                  | [] => None
                  end
                else if Ascii.eqb d "0" then
                  match r1 with
                  | o1 :: r2 =>
                      if is_octal o1 then
                        match r2 with
                        | o2 :: r3 =>
                            if is_octal o2
                            then lit (ascii_of_nat
                                        (8 * digit_value o1 + digit_value o2))
                                   (parse_template_from Plain r3)
                            else lit (ascii_of_nat (digit_value o1))
                                   (parse_template_from Plain r2)
                        | [] => lit (ascii_of_nat (digit_value o1))
                                  (parse_template_from Plain r2)
                        end
                      else lit zero (parse_template_from Plain r1)
                  | [] => lit zero (parse_template_from Plain r1)
                  end
                else if is_digit d then
                  match r1 with
                  | d2 :: r2 =>
                      if is_digit d2 then
                        match r2 with
                        | d3 :: r3 =>
                            if is_octal d && is_octal d2 && is_octal d3 then
                              let v := 64 * digit_value d + 8 * digit_value d2
                                       + digit_value d3 in
                              if v <=? 255
                              then lit (ascii_of_nat v)
                                     (parse_template_from Plain r3)
                              else None
                            else None
                        | [] => None
                        end
                      else if Ascii.eqb d "1"
                           then group (parse_template_from Plain r1)
                           else None
                  | [] => if Ascii.eqb d "1"
                          then group (parse_template_from Plain r1)
                          else None
                  end
                else
                  match escape_char d with
                  | Some e => lit e (parse_template_from Plain r1)
                  | None =>
                      if is_ascii_letter d then None
                      else lit c (lit d (parse_template_from Plain r1))
                  end
            end
      | NameStart =>
          if is_space c then parse_template_from NameStart rest
          else if Ascii.eqb c "+" then parse_template_from (NameSigned false) rest
          else if Ascii.eqb c "-" then parse_template_from (NameSigned true) rest
          else if is_digit c
               then parse_template_from (NameDigits false (digit_value c)) rest
          else None
      | NameSigned neg =>
          if is_digit c
          then parse_template_from (NameDigits neg (digit_value c)) rest
          else None
      | NameDigits neg v =>
          if is_digit c
          then parse_template_from (NameDigits neg (10 * v + digit_value c)) rest
          else if Ascii.eqb c "_" then parse_template_from (NameUnderscore neg v) rest
          else if is_space c then parse_template_from (NameTrail neg v) rest
          else if Ascii.eqb c ">"
               then if group_ok neg v
                    then group (parse_template_from Plain rest) else None
          else None
      | NameUnderscore neg v =>
          if is_digit c
          then parse_template_from (NameDigits neg (10 * v + digit_value c)) rest
          else None
      | NameTrail neg v =>
          if is_space c then parse_template_from (NameTrail neg v) rest
          else if Ascii.eqb c ">"
               then if group_ok neg v
                    then group (parse_template_from Plain rest) else None
          else None
      end
  end.

(** [re]'s [parse_template]: [None] when it raises. *)
Definition parse_template (t : text) : option (list tpl_item) :=
  parse_template_from Plain t.

Definition expand (repl : list tpl_item) (group1 : text) : text :=
  flat_map (fun i => match i with Lit c => [c] | Group1 => group1 end) repl.

(** *** The list pattern

    The pattern at the head of [s]: [list_name], a colon, [\s*], an
    opening bracket and [[^\]]*], all inside group 1, for a [list_name]
    without metacharacters.  The result is the text matched, which is
    group 1.  Both stars are greedy and what follows each of them cannot
    be taken by it, so the first try is the match. *)
Definition match_list (list_name s : text) : option text :=
  match strip_prefix (list_name ++ str ":") s with
  | Some after_colon =>
      let (ws, after_ws) := span is_space after_colon in
      match after_ws with
      | c :: after_bracket =>
          if Ascii.eqb c "["
          then Some (list_name ++ str ":" ++ ws
                       ++ c :: fst (span not_rbracket after_bracket))
          else None
      | [] => None
      end
  | None => None
  end.

(** [pattern.sub(repl, content)] for a template already read: every
    match from left to right, none overlapping, replaced by the expanded
    template.  [skip] counts the characters of the current match that
    are still to be passed. *)
Fixpoint sub_from (list_name : text) (repl : list tpl_item) (skip : nat)
    (content : text) : text :=
  match content with
  | [] => []
  | c :: rest =>
      match skip with
      | S k => sub_from list_name repl k rest
      | O =>
          match match_list list_name content with
          | Some m =>
              expand repl m
                ++ sub_from list_name repl (length m - 1) rest
          | None => c :: sub_from list_name repl 0 rest
          end
      end
  end.

(** The value of the literal [f"\1, {new_remote_ids_str}"]: the literal
    is not raw, so it begins with the character of code 1, not with a
    reference to group 1. *)
Definition replacement (new_remote_ids_str : text) : text :=
  ascii_of_nat 1 :: str ", " ++ new_remote_ids_str.

(** The inner function [append_to_list]; [new_remote_ids_str] is the
    variable it closes over.  [re] reads the template before it looks
    for a match: [None] stands for the exception it raises on a
    template it rejects. *)
Definition append_to_list (new_remote_ids_str list_name content : text)
  : option text :=
  match parse_template (replacement new_remote_ids_str) with
  | Some repl => Some (sub_from list_name repl 0 content)
  | None => None
  end.

(** [content] is the text of the file at KNOT_CONFIG_PATH; [None]
    stands for the exception of [append_to_list]. *)
Definition generate_new_config (content : text) (new_remotes : dict)
  : option text :=
  let lines := readlines content in
  let new_config_lines := add_remote_blocks lines new_remotes in
  let new_config_str := concat new_config_lines in
  let new_remote_ids_str := join (str ", ") (keys new_remotes) in
  match append_to_list new_remote_ids_str (str "remote") new_config_str with
  | Some new_config_str' =>
      append_to_list new_remote_ids_str (str "master") new_config_str'
  | None => None
  end.

End Synth.

(** ** Convergence Driver: [main] *)

Module Driver.

Import Catalog Parser Synth.

(** How a call to the Kubernetes API, with what its [try] block does
    around it, ends.  [main] catches [ApiException] and nothing else
    there. *)
Inductive api_outcome := ApiOk | ApiException | OtherError.

(** What one run meets outside the process. *)
Record env := {
  incluster_config_loads : bool;
  xfr : option zone;
  knot_conf_file : option text;
  read_config_map : api_outcome;
  replace_config_map : api_outcome;
  patch_stateful_set : api_outcome;
  utcnow : text
}.

(** The failure conditions that [main] handles. *)
Inductive failure :=
| TransferUnavailable
| MissingDocument
| StorageWriteFailure
| RestartSignalFailure.

(** What a run does to the outside and which handled failures it
    meets, in order. *)
Inductive event :=
| Failed (f : failure)
| ConfigMapReplaced (knot_conf : text)
| RestartSignalled (restartedAt : text).

(** How the run ends: [main] returns, the process leaves through
    [exit(code)], or an exception leaves [main]. *)
Inductive outcome :=
| Returned
| SystemExit (code : nat)
| Uncaught.

(** The events so far, and a value to go on with or the end of the
    run. *)
Definition run (A : Type) : Type := list event * (A + outcome).

Definition ret {A : Type} (a : A) : run A := ([], inl a).

Definition stop {A : Type} (o : outcome) : run A := ([], inr o).

Definition fail {A : Type} (f : failure) (o : outcome) : run A :=
  ([Failed f], inr o).

Definition emit (ev : event) : run unit := ([ev], inl tt).

Definition bind {A B : Type} (m : run A) (k : A -> run B) : run B :=
  match m with
  | (evs, inl a) => let (evs', r) := k a in (evs ++ evs', r)
  | (evs, inr o) => (evs, inr o)
  end.

Notation "x <- m ;; k" := (bind m (fun x => k))
  (at level 61, m at next level, right associativity).
Notation "m ;;; k" := (bind m (fun _ => k))
  (at level 61, right associativity).

(** A call inside [try: ... except ApiException: ...; return]. *)
Definition api_call (o : api_outcome) (f : failure) : run unit :=
  match o with
  | ApiOk => ret tt
  | ApiException => fail f Returned
  | OtherError => stop Uncaught
  end.

(** [set(desired_remotes.keys()) - current_remotes] *)
Definition missing_ids (desired_remotes : dict) (current_remotes : list text)
  : list text :=
  filter (fun k => negb (mem k current_remotes)) (keys desired_remotes).

(** [{k: v for k, v in desired_remotes.items() if k in missing}] *)
Definition restrict (desired_remotes : dict) (missing : list text) : dict :=
  filter (fun item => mem (fst item) missing) desired_remotes.

Definition main (e : env) : run unit :=
  if negb (incluster_config_loads e) then stop Returned else
  desired_remotes <-
    match get_desired_remotes_from_catalog (xfr e) with
    | Desired d => ret d
    | Exit code => fail TransferUnavailable (SystemExit code)
    end ;;
  current_remotes <-
    match get_current_remotes_from_config (knot_conf_file e) with
    | Some s => ret s
    | None => fail MissingDocument Returned
    end ;;
  let missing_remotes_ids := missing_ids desired_remotes current_remotes in
  match missing_remotes_ids with
  | [] => stop Returned
  | _ :: _ =>
      let remotes_to_add := restrict desired_remotes missing_remotes_ids in
      new_knot_conf <-
        match knot_conf_file e with
        | Some content =>
            match generate_new_config content remotes_to_add with
            | Some c => ret c
            | None => stop Uncaught
            end
        | None => stop Uncaught
        end ;;
      api_call (read_config_map e) StorageWriteFailure ;;;
      api_call (replace_config_map e) StorageWriteFailure ;;;
      emit (ConfigMapReplaced new_knot_conf) ;;;
      api_call (patch_stateful_set e) RestartSignalFailure ;;;
      emit (RestartSignalled (utcnow e))
  end.

Definition log (e : env) : list event := fst (main e).

Definition result (e : env) : outcome :=
  match snd (main e) with
  | inl _ => Returned
  | inr o => o
  end.

Definition is_write (ev : event) : bool :=
  match ev with
  | Failed _ => false
  | ConfigMapReplaced _ | RestartSignalled _ => true
  end.

(** The external writes of a run. *)
Definition writes (e : env) : list event := filter is_write (log e).

(** The process ends with success: [main] returned or [exit(0)]. *)
Definition successful (o : outcome) : bool :=
  match o with
  | Returned | SystemExit 0 => true
  | _ => false
  end.

(** The state of the cluster that a run can change: the [knot.conf]
    field of the ConfigMap and the restart annotation of the
    StatefulSet. *)
Record cluster := {
  cm_knot_conf : text;
  restarted_at : option text
}.

Definition apply_event (c : cluster) (ev : event) : cluster :=
  match ev with
  | Failed _ => c
  | ConfigMapReplaced k =>
      {| cm_knot_conf := k; restarted_at := restarted_at c |}
  | RestartSignalled t =>
      {| cm_knot_conf := cm_knot_conf c; restarted_at := Some t |}
  end.

Definition cluster_after (e : env) (c : cluster) : cluster :=
  fold_left apply_event (log e) c.

End Driver.

(** ** Notions of the statements *)

(** No character of [t] is a backslash: as a replacement template the
    text stands for itself. *)
Definition backslash_free (t : text) : bool :=
  forallb (fun c => negb (Ascii.eqb c "\")) t.

(** No line holds the anchor. *)
Definition no_anchor (lines : list text) : bool :=
  forallb (fun line => negb (contains Synth.anchor line)) lines.

(** The substitution of [append_to_list] for a replacement without
    backslash: every match gives way to the replacement. *)
Definition replace_lists (list_name replacement content : text) : text :=
  Synth.sub_from list_name (map Synth.Lit replacement) 0 content.

(** The list name does not begin with the character [x]. *)
Definition unlike (list_name : text) (x : ascii) : Prop :=
  forall rest, strip_prefix (list_name ++ str ":") (x :: rest) = None.

(** No match of the list pattern starts at one of the first [k]
    positions of [content]. *)
Fixpoint none_start (list_name : text) (k : nat) (content : text) : bool :=
  match k with
  | 0 => true
  | S k' =>
      match Synth.match_list list_name content with
      | Some _ => false
      | None =>
          match content with
          | [] => true
          | _ :: rest => none_start list_name k' rest
          end
      end
  end.

(** The number of matches of the list pattern, as [sub] finds them. *)
Fixpoint count_lists_from (list_name : text) (skip : nat) (content : text)
  : nat :=
  match content with
  | [] => 0
  | _ :: rest =>
      match skip with
      | S k => count_lists_from list_name k rest
      | O =>
          match Synth.match_list list_name content with
          | Some m => S (count_lists_from list_name (length m - 1) rest)
          | None => count_lists_from list_name 0 rest
          end
      end
  end.

Definition count_lists (list_name content : text) : nat :=
  count_lists_from list_name 0 content.

(** The blocks of a dictionary's items, in the order given. *)
Definition blocks_of (items : dict) : list text :=
  flat_map (fun item => Synth.new_block (fst item) (snd item)) items.

(** The shapes a run of the driver can have: its events and how it
    ends. *)
Inductive run_shape : list Driver.event -> Driver.outcome -> Prop :=
| shape_quiet (o : Driver.outcome) : run_shape [] o
| shape_failed (f : Driver.failure) (o : Driver.outcome) :
    Driver.successful o = true -> run_shape [Driver.Failed f] o
| shape_restart_failed (k : text) :
    run_shape [Driver.ConfigMapReplaced k;
               Driver.Failed Driver.RestartSignalFailure] Driver.Returned
| shape_restart_raised (k : text) :
    run_shape [Driver.ConfigMapReplaced k] Driver.Uncaught
| shape_done (k t : text) :
    run_shape [Driver.ConfigMapReplaced k; Driver.RestartSignalled t]
      Driver.Returned.

(** ** Sample inputs *)

Module Sample.

Import Catalog Driver.

Definition lines_of (l : list string) : text :=
  concat (map (fun s => str s ++ [nl]) l).

(** A configuration with a remote section, an access list and a
    template: the lines in front of the anchor line, the anchor line and
    the lines behind it. *)
Definition head_lines : list text :=
  map (fun s => str s ++ [nl])
    [ "server:";
      "    listen: 0.0.0.0@53" ]%string.

Definition anchor_line : text := str "remote:" ++ [nl].

Definition tail_lines : list text :=
  map (fun s => str s ++ [nl])
    [ "      - id: hub-remote";
      "        address: site-hub.dns.internal@853";
      "acl:";
      "      - id: transfer-acl";
      "        remote: [hub-remote]";
      "        action: transfer";
      "template:";
      "      - id: secondary-template";
      "        master: [hub-remote]" ]%string.

Definition knot_conf : text :=
  concat (head_lines ++ anchor_line :: tail_lines).

(** The same section headers without a remote section. *)
Definition knot_conf_no_anchor : text :=
  lines_of [ "server:";
             "    listen: 0.0.0.0@53";
             "template:";
             "      - id: secondary-template";
             "        master: [hub-remote]" ]%string.

(** A remote section written the way the parser's pattern wants it. *)
Definition knot_conf_listed : text :=
  lines_of [ "remote:";
             "  -    id:  hub-remote";
             "       address: site-hub.dns.internal@853" ]%string.

Definition two_remotes : dict :=
  [ (str "east-remote", str "site-east.dns.internal");
    (str "west-remote", str "site-west.dns.internal") ].

(** A catalog zone with its apex, its version record and one member. *)
Definition catalog : zone :=
  [ (str "@", [ {| rdtype := 6; items := [str "invalid. invalid. 1 2 3 4 5"] |};
                {| rdtype := 2; items := [str "invalid."] |} ]);
    (str "version", [ {| rdtype := 16; items := [str "2"] |} ]);
    (str "7f3a.zones",
     [ {| rdtype := PTR; items := [str "catalog-primary.internal.dns."] |} ]) ].

(** A run in which every outside call succeeds. *)
Definition calm (z : zone) (file : text) : env :=
  {| incluster_config_loads := true;
     xfr := Some z;
     knot_conf_file := Some file;
     read_config_map := ApiOk;
     replace_config_map := ApiOk;
     patch_stateful_set := ApiOk;
     utcnow := str "2024-05-01T00:00:00" |}.

(** The same run with the transfer failing. *)
Definition transfer_down : env :=
  {| incluster_config_loads := true;
     xfr := None;
     knot_conf_file := Some knot_conf;
     read_config_map := ApiOk;
     replace_config_map := ApiOk;
     patch_stateful_set := ApiOk;
     utcnow := str "2024-05-01T00:00:00" |}.

(** The same run with the storage rejecting the update. *)
Definition storage_rejects : env :=
  {| incluster_config_loads := true;
     xfr := Some catalog;
     knot_conf_file := Some knot_conf;
     read_config_map := ApiOk;
     replace_config_map := ApiException;
     patch_stateful_set := ApiOk;
     utcnow := str "2024-05-01T00:00:00" |}.

End Sample.

(** ** Notions of the further properties *)

Definition reserved (name : text) : bool :=
  text_eqb name (str "version") || text_eqb name (str "@").

Definition no_ptr (rdatasets : list Catalog.rdataset) : bool :=
  forallb (fun rds => negb (Catalog.rdtype rds =? Catalog.PTR)) rdatasets.

(** [zone_name] is the target of a PTR record of a node of [z] that is
    neither the apex nor the version node. *)
Definition member_of (z : Catalog.zone) (zone_name : text) : Prop :=
  exists name rdatasets rds,
    In (name, rdatasets) z
    /\ reserved name = false
    /\ In rds rdatasets
    /\ Catalog.rdtype rds = Catalog.PTR
    /\ In zone_name (Catalog.items rds).

(** The entry that the reader derives from a member zone name. *)
Definition entry_of (zone_name : text) : text * text :=
  (Catalog.remote_id_of (Catalog.first_label zone_name),
   Catalog.fqdn_of (Catalog.first_label zone_name)).

(** A line of a remote section as the parser's pattern wants it: an
    indentation, the marker and the identifier. *)
Definition id_line (indent tok : text) : text :=
  indent ++ Parser.id_marker ++ tok ++ [nl].

Definition no_dash (t : text) : bool :=
  forallb (fun c => negb (Ascii.eqb c "-")) t.

(** An identifier that [\S+] takes whole: not empty, no white space. *)
Definition is_token (tok : text) : bool :=
  match tok with
  | [] => false
  | _ => forallb is_nonspace tok
  end.

Definition not_nl (c : ascii) : bool := negb (Ascii.eqb c nl).

(** A line that ends in its one newline. *)
Fixpoint closed_line (line : text) : bool :=
  match line with
  | [] => false
  | [c] => Ascii.eqb c nl
  | c :: rest => not_nl c && closed_line rest
  end.

(** A last line without newline: not empty. *)
Definition open_line (line : text) : bool :=
  match line with
  | [] => false
  | _ => forallb not_nl line
  end.

(** Lines as [readlines] yields them: every line ends in its one
    newline, but for the last one, which may end without. *)
Fixpoint proper_lines (lines : list text) : bool :=
  match lines with
  | [] => true
  | [line] => closed_line line || open_line line
  | line :: rest => closed_line line && proper_lines rest
  end.



(** ** Further sample inputs *)

Module Cases.

Import Catalog Driver.

(** The member zone of the sample catalog and its node. *)
Definition member : text := str "catalog-primary.internal.dns.".

Definition member_node : text * list rdataset :=
  (str "7f3a.zones", [ {| rdtype := PTR; items := [member] |} ]).

(** The character with code 1. *)
Definition soh : ascii := ascii_of_nat 1.

(** A document from its lines, each given without its newline. *)
Definition doc (lines : list text) : text :=
  concat (map (fun line => line ++ [nl]) lines).

(** The document synthesized from the sample configuration for the one
    remote of the sample catalog: the head of either list has given
    way to the replacement. *)
Definition written : text :=
  doc
    [ str "server:";
      str "    listen: 0.0.0.0@53";
      str "remote:";
      str "      - id: catalog-primary-remote";
      str "        address: site-catalog-primary.dns.internal@853 # !!! CHANGE THIS to the site's FQDN !!!";
      str "        key: xfr-key";
      str "        quic: on";
      str "      - id: hub-remote";
      str "        address: site-hub.dns.internal@853";
      str "acl:";
      str "      - id: transfer-acl";
      str "        " ++ soh :: str ", catalog-primary-remote]";
      str "        action: transfer";
      str "template:";
      str "      - id: secondary-template";
      str "        " ++ soh :: str ", catalog-primary-remote]" ].

(** The document synthesized from the sample configuration for the two
    sample remotes. *)
Definition synthesized_two : text :=
  doc
    [ str "server:";
      str "    listen: 0.0.0.0@53";
      str "remote:";
      str "      - id: west-remote";
      str "        address: site-west.dns.internal@853 # !!! CHANGE THIS to the site's FQDN !!!";
      str "        key: xfr-key";
      str "        quic: on";
      str "      - id: east-remote";
      str "        address: site-east.dns.internal@853 # !!! CHANGE THIS to the site's FQDN !!!";
      str "        key: xfr-key";
      str "        quic: on";
      str "      - id: hub-remote";
      str "        address: site-hub.dns.internal@853";
      str "acl:";
      str "      - id: transfer-acl";
      str "        " ++ soh :: str ", east-remote, west-remote]";
      str "        action: transfer";
      str "template:";
      str "      - id: secondary-template";
      str "        " ++ soh :: str ", east-remote, west-remote]" ].

(** The document synthesized from the sample configuration without
    remote section for the two sample remotes. *)
Definition synthesized_no_anchor : text :=
  doc
    [ str "server:";
      str "    listen: 0.0.0.0@53";
      str "template:";
      str "      - id: secondary-template";
      str "        " ++ soh :: str ", east-remote, west-remote]" ].

(** Three remotes, in the order of their map. *)
Definition three_remotes : dict :=
  [ (str "north-remote", str "site-north.dns.internal");
    (str "east-remote", str "site-east.dns.internal");
    (str "west-remote", str "site-west.dns.internal") ].

(** The lines of the sample configuration after the blocks of the
    three remotes are inserted. *)
Definition lines_with_three_blocks : list text :=
  map (fun s => str s ++ [nl])
    [ "server:";
      "    listen: 0.0.0.0@53";
      "remote:";
      "      - id: west-remote";
      "        address: site-west.dns.internal@853 # !!! CHANGE THIS to the site's FQDN !!!";
      "        key: xfr-key";
      "        quic: on";
      "      - id: east-remote";
      "        address: site-east.dns.internal@853 # !!! CHANGE THIS to the site's FQDN !!!";
      "        key: xfr-key";
      "        quic: on";
      "      - id: north-remote";
      "        address: site-north.dns.internal@853 # !!! CHANGE THIS to the site's FQDN !!!";
      "        key: xfr-key";
      "        quic: on";
      "      - id: hub-remote";
      "        address: site-hub.dns.internal@853";
      "acl:";
      "      - id: transfer-acl";
      "        remote: [hub-remote]";
      "        action: transfer";
      "template:";
      "      - id: secondary-template";
      "        master: [hub-remote]" ]%string.

(** The document synthesized from them. *)
Definition synthesized_three : text :=
  doc
    [ str "server:";
      str "    listen: 0.0.0.0@53";
      str "remote:";
      str "      - id: west-remote";
      str "        address: site-west.dns.internal@853 # !!! CHANGE THIS to the site's FQDN !!!";
      str "        key: xfr-key";
      str "        quic: on";
      str "      - id: east-remote";
      str "        address: site-east.dns.internal@853 # !!! CHANGE THIS to the site's FQDN !!!";
      str "        key: xfr-key";
      str "        quic: on";
      str "      - id: north-remote";
      str "        address: site-north.dns.internal@853 # !!! CHANGE THIS to the site's FQDN !!!";
      str "        key: xfr-key";
      str "        quic: on";
      str "      - id: hub-remote";
      str "        address: site-hub.dns.internal@853";
      str "acl:";
      str "      - id: transfer-acl";
      str "        " ++ soh :: str ", north-remote, east-remote, west-remote]";
      str "        action: transfer";
      str "template:";
      str "      - id: secondary-template";
      str "        " ++ soh :: str ", north-remote, east-remote, west-remote]" ].

(** The sample configuration after a run of the synthesizer with an
    empty map. *)
Definition synthesized_empty : text :=
  doc
    [ str "server:";
      str "    listen: 0.0.0.0@53";
      str "remote:";
      str "      - id: hub-remote";
      str "        address: site-hub.dns.internal@853";
      str "acl:";
      str "      - id: transfer-acl";
      str "        " ++ soh :: str ", ]";
      str "        action: transfer";
      str "template:";
      str "      - id: secondary-template";
      str "        " ++ soh :: str ", ]" ].

(** The sample configuration in front of its [remote] list and behind
    it. *)
Definition before_remote_list : text :=
  concat Sample.head_lines ++ Sample.anchor_line
    ++ Sample.lines_of
         [ "      - id: hub-remote";
           "        address: site-hub.dns.internal@853";
           "acl:";
           "      - id: transfer-acl" ]%string
    ++ str "        ".

Definition behind_remote_list : text :=
  nl :: Sample.lines_of
          [ "        action: transfer";
            "template:";
            "      - id: secondary-template";
            "        master: [hub-remote]" ]%string.

(** A configuration without remote section and without template. *)
Definition bare_conf : text :=
  Sample.lines_of [ "server:"; "    listen: 0.0.0.0@53" ]%string.

(** A run in which the restart signal is rejected. *)
Definition restart_rejected : env :=
  {| incluster_config_loads := true;
     xfr := Some Sample.catalog;
     knot_conf_file := Some Sample.knot_conf;
     read_config_map := ApiOk;
     replace_config_map := ApiOk;
     patch_stateful_set := ApiException;
     utcnow := str "2024-05-01T00:00:00" |}.

(** The state of a cluster before a run. *)
Definition cluster_before : cluster :=
  {| cm_knot_conf := Sample.knot_conf; restarted_at := None |}.

End Cases.

(** * Properties *)

(** ** Text *)

Section TextFacts.

Lemma strip_prefix_app (p r : text) : strip_prefix p (p ++ r) = Some r.
Proof.
  induction p as [|a p IH]; simpl; [reflexivity|].
  now rewrite Ascii.eqb_refl.
Qed.

Lemma strip_prefix_Some (p s r : text) :
  strip_prefix p s = Some r -> s = p ++ r.
Proof.
  revert s; induction p as [|a p IH]; intros s H; simpl in *.
  - now inversion H.
  - destruct s as [|b s]; [discriminate|].
    destruct (Ascii.eqb a b) eqn:E; [|discriminate].
    apply Ascii.eqb_eq in E; subst b.
    now rewrite (IH _ H).
Qed.

Lemma strip_prefix_None_app (p s r : text) :
  strip_prefix p s = None -> length p <= length s ->
  strip_prefix p (s ++ r) = None.
Proof.
  revert s; induction p as [|a p IH]; intros s H L; simpl in *.
  - discriminate.
  - destruct s as [|b s]; simpl in *; [lia|].
    destruct (Ascii.eqb a b); [|reflexivity].
    apply IH; [assumption|lia].
Qed.

Lemma contains_cons (p : text) (c : ascii) (s : text) :
  contains p (c :: s) =
  match strip_prefix p (c :: s) with
  | Some _ => true
  | None => contains p s
  end.
Proof. reflexivity. Qed.

Lemma contains_prefix (p r : text) : contains p (p ++ r) = true.
Proof.
  destruct (p ++ r) as [|c s] eqn:E.
  - apply app_eq_nil in E as [-> _]. reflexivity.
  - rewrite contains_cons, <- E, strip_prefix_app. reflexivity.
Qed.

Lemma contains_app_l (p a s : text) :
  contains p s = true -> contains p (a ++ s) = true.
Proof.
  intros H; induction a as [|c a IH]; simpl app; [assumption|].
  rewrite contains_cons, IH. now destruct (strip_prefix p _).
Qed.

Lemma contains_middle (p a b : text) : contains p (a ++ p ++ b) = true.
Proof. apply contains_app_l, contains_prefix. Qed.

Lemma contains_tail (p : text) (c : ascii) (s : text) :
  contains p (c :: s) = false -> contains p s = false.
Proof.
  rewrite contains_cons. now destruct (strip_prefix p (c :: s)).
Qed.

Lemma contains_head (p : text) (c : ascii) (s : text) :
  contains p (c :: s) = false -> strip_prefix p (c :: s) = None.
Proof.
  rewrite contains_cons. now destruct (strip_prefix p (c :: s)).
Qed.

Lemma span_app (f : ascii -> bool) (s : text) :
  s = fst (span f s) ++ snd (span f s).
Proof.
  induction s as [|c s IH]; simpl; [reflexivity|].
  destruct (f c); [|reflexivity].
  destruct (span f s) as [a b]; simpl in *. now rewrite <- IH.
Qed.

Lemma span_fst_all (f : ascii -> bool) (s : text) :
  forallb f (fst (span f s)) = true.
Proof.
  induction s as [|c s IH]; simpl; [reflexivity|].
  destruct (f c) eqn:E; [|reflexivity].
  destruct (span f s) as [a b]; simpl in *. now rewrite E.
Qed.

Lemma span_snd_stop (f : ascii -> bool) (s : text) :
  match snd (span f s) with
  | [] => True
  | c :: _ => f c = false
  end.
Proof.
  induction s as [|c s IH]; simpl; [exact I|].
  destruct (f c) eqn:E; [|exact E].
  destruct (span f s) as [a b]. exact IH.
Qed.

Lemma span_exact (f : ascii -> bool) (a b : text) :
  forallb f a = true ->
  match b with [] => True | c :: _ => f c = false end ->
  span f (a ++ b) = (a, b).
Proof.
  intros Ha Hb; induction a as [|c a IH]; simpl in *.
  - destruct b as [|c b]; [reflexivity|]. simpl. now rewrite Hb.
  - apply andb_prop in Ha as [Hc Ha]. now rewrite Hc, (IH Ha).
Qed.

End TextFacts.

(** ** Config Parser *)

Section ParserFacts.

Import Parser.

Lemma lazy_section_cons (c : ascii) (s : text) :
  lazy_section (c :: s) =
  if word_colon (c :: s) || at_dollar (c :: s) then []
  else c :: lazy_section s.
Proof. reflexivity. Qed.

Lemma lazy_section_prefix (s : text) : exists r, s = lazy_section s ++ r.
Proof.
  induction s as [|c s [r IH]]; [now exists []|].
  rewrite lazy_section_cons.
  destruct (word_colon (c :: s) || at_dollar (c :: s)).
  - now exists (c :: s).
  - exists r. simpl. f_equal. exact IH.
Qed.

(** The section never reaches an [id:] marker: [id:] is itself a match
    of [\w+:], where the lazy star stops. *)
Lemma lazy_section_no_id (s : text) :
  contains (str "id:") (lazy_section s) = false.
Proof.
  induction s as [|c s IH]; [reflexivity|].
  rewrite lazy_section_cons.
  destruct (word_colon (c :: s) || at_dollar (c :: s)) eqn:E; [reflexivity|].
  rewrite contains_cons, IH.
  destruct (strip_prefix (str "id:") (c :: lazy_section s)) as [r|] eqn:P;
    [exfalso|reflexivity].
  apply strip_prefix_Some in P. simpl in P.
  destruct (lazy_section_prefix s) as [r' Hs].
  injection P as -> P. rewrite P in Hs. subst s.
  apply orb_false_elim in E as [E _]. discriminate E.
Qed.

Lemma match_id_contains (s tok : text) :
  match_id s = Some tok -> contains (str "id:") s = true.
Proof.
  unfold match_id. intros H.
  destruct (strip_prefix id_marker s) as [rest|] eqn:P; [|discriminate].
  apply strip_prefix_Some in P. subst s.
  change id_marker with (str "-    " ++ str "id:" ++ str "  ").
  rewrite <- !app_assoc. apply contains_middle.
Qed.

Lemma findall_ids_none (s : text) :
  contains (str "id:") s = false ->
  forall skip, findall_ids_from skip s = [].
Proof.
  induction s as [|c s IH]; intros H skip; [reflexivity|].
  simpl. destruct skip as [|k].
  - destruct (match_id (c :: s)) as [tok|] eqn:M.
    + apply match_id_contains in M. congruence.
    + apply IH. eapply contains_tail, H.
  - apply IH. eapply contains_tail, H.
Qed.

(** The parser finds no identifier, whatever the document holds. *)
Lemma remotes_of_content_nil (content : text) :
  remotes_of_content content = [].
Proof.
  unfold remotes_of_content.
  assert (G : forall c, match search_remote_section c with
                        | Some g => contains (str "id:") g = false
                        | None => True
                        end).
  { induction c as [|a c IH]; [exact I|].
    change (search_remote_section (a :: c))
      with (match strip_prefix (str "remote:") (a :: c) with
            | Some rest => Some (lazy_section rest)
            | None => search_remote_section c
            end).
    destruct (strip_prefix (str "remote:") (a :: c));
      [apply lazy_section_no_id | exact IH]. }
  specialize (G content).
  destruct (search_remote_section content) as [g|]; [|reflexivity].
  unfold findall_ids. now rewrite findall_ids_none.
Qed.

End ParserFacts.

(** ** Config Synthesizer *)

Section SynthFacts.

Import Synth.

Lemma readlines_cons (c : ascii) (rest : text) :
  readlines (c :: rest) =
  if Ascii.eqb c nl then [c] :: readlines rest
  else match readlines rest with
       | [] => [[c]]
       | line :: lines => (c :: line) :: lines
       end.
Proof. reflexivity. Qed.

(** Reading the lines loses nothing: joined again they are the text. *)
Lemma concat_readlines (content : text) :
  concat (readlines content) = content.
Proof.
  induction content as [|c rest IH]; [reflexivity|].
  rewrite readlines_cons.
  destruct (Ascii.eqb c nl).
  - simpl. now rewrite IH.
  - destruct (readlines rest) as [|line lines]; simpl in *; now rewrite <- IH.
Qed.

Lemma find_anchor_app (pre : list text) (line : text) (post : list text) :
  no_anchor pre = true -> contains anchor line = true ->
  forall i, find_anchor i (pre ++ line :: post) = Some (i + length pre).
Proof.
  intros Hpre Hline.
  induction pre as [|l pre IH]; intros i; simpl.
  - rewrite Hline. f_equal. lia.
  - simpl in Hpre. apply andb_prop in Hpre as [Hl Hpre].
    apply negb_true_iff in Hl. rewrite Hl, (IH Hpre). f_equal. lia.
Qed.

Lemma find_anchor_none (lines : list text) :
  no_anchor lines = true -> forall i, find_anchor i lines = None.
Proof.
  induction lines as [|l lines IH]; intros H i; simpl; [reflexivity|].
  simpl in H. apply andb_prop in H as [Hl H].
  apply negb_true_iff in Hl. rewrite Hl. now apply IH.
Qed.

Lemma slice_insert_app (n : nat) (block head rest : list text) :
  length head = n ->
  slice_insert n block (head ++ rest) = head ++ block ++ rest.
Proof.
  intros <-. unfold slice_insert.
  rewrite firstn_app, Nat.sub_diag, firstn_all, skipn_app, Nat.sub_diag,
    skipn_all.
  simpl. now rewrite app_nil_r.
Qed.

(** Every block goes in at the same index, so a later block lands in
    front of the earlier ones. *)
Lemma insert_blocks_rev (i : nat) (head tail : list text) :
  length head = i + 1 ->
  forall (new_remotes : dict) (inserted : list text),
    insert_blocks i new_remotes (head ++ inserted ++ tail) =
    head ++ blocks_of (rev new_remotes) ++ inserted ++ tail.
Proof.
  intros Hlen. unfold insert_blocks, blocks_of.
  induction new_remotes as [|item rest IH]; intros inserted; simpl;
    [reflexivity|].
  rewrite slice_insert_app by exact Hlen.
  rewrite (app_assoc (new_block _ _) inserted tail), IH, flat_map_app.
  cbn [flat_map]. now rewrite app_nil_r, <- !app_assoc.
Qed.

Lemma add_remote_blocks_anchor (pre : list text) (line : text)
    (post : list text) (new_remotes : dict) :
  no_anchor pre = true -> contains anchor line = true ->
  add_remote_blocks (pre ++ line :: post) new_remotes =
  pre ++ line :: blocks_of (rev new_remotes) ++ post.
Proof.
  intros Hpre Hline. unfold add_remote_blocks.
  rewrite find_anchor_app by assumption. simpl.
  assert (L : length (pre ++ [line]) = length pre + 1)
    by (rewrite length_app; reflexivity).
  pose proof (insert_blocks_rev (length pre) (pre ++ [line]) post L
                new_remotes []) as H.
  simpl in H. rewrite <- !app_assoc in H. simpl in H.
  rewrite H. reflexivity.
Qed.

Lemma add_remote_blocks_no_anchor (lines : list text) (new_remotes : dict) :
  no_anchor lines = true -> add_remote_blocks lines new_remotes = lines.
Proof.
  intros H. unfold add_remote_blocks. now rewrite find_anchor_none.
Qed.

Lemma add_remote_blocks_empty (lines : list text) :
  add_remote_blocks lines [] = lines.
Proof.
  unfold add_remote_blocks. now destruct (find_anchor 0 lines).
Qed.

(** *** The template *)

Lemma parse_template_literal (t : text) :
  backslash_free t = true -> parse_template t = Some (map Lit t).
Proof.
  unfold parse_template.
  induction t as [|c t IH]; intros H; [reflexivity|].
  unfold backslash_free in H. cbn [forallb] in H.
  apply andb_prop in H as [Hc H].
  cbn [parse_template_from]. rewrite Hc.
  unfold backslash_free in IH. rewrite (IH H). reflexivity.
Qed.

Lemma backslash_free_replacement (ids : text) :
  backslash_free (replacement ids) = backslash_free ids.
Proof. reflexivity. Qed.

Lemma append_to_list_replace (ids list_name content : text) :
  backslash_free ids = true ->
  append_to_list ids list_name content =
  Some (replace_lists list_name (replacement ids) content).
Proof.
  intros H. unfold append_to_list.
  rewrite parse_template_literal; [reflexivity|].
  now rewrite backslash_free_replacement.
Qed.

Lemma expand_literal (r m : text) : expand (map Lit r) m = r.
Proof.
  unfold expand.
  induction r as [|c r IH]; simpl; [reflexivity|]. now rewrite IH.
Qed.

End SynthFacts.

(** ** The substitution of [append_to_list] *)

Section ListFacts.

Import Synth.

Variable list_name : text.
Variable repl : list tpl_item.

Lemma sub_from_cons (skip : nat) (c : ascii) (rest : text) :
  sub_from list_name repl skip (c :: rest) =
  match skip with
  | S k => sub_from list_name repl k rest
  | O =>
      match match_list list_name (c :: rest) with
      | Some m => expand repl m ++ sub_from list_name repl (length m - 1) rest
      | None => c :: sub_from list_name repl 0 rest
      end
  end.
Proof. reflexivity. Qed.

Lemma sub_from_skip (passed rest : text) :
  sub_from list_name repl (length passed) (passed ++ rest) =
  sub_from list_name repl 0 rest.
Proof.
  induction passed as [|c passed IH]; [|exact IH].
  destruct rest; reflexivity.
Qed.

(** A match is a prefix of the text and holds at least the colon. *)
Lemma match_list_prefix (s m : text) :
  match_list list_name s = Some m -> exists r, s = m ++ r /\ m <> [].
Proof.
  unfold match_list. intros H.
  destruct (strip_prefix (list_name ++ str ":") s) as [r1|] eqn:P;
    [|discriminate].
  apply strip_prefix_Some in P.
  pose proof (span_app is_space r1) as S1.
  destruct (span is_space r1) as [ws r2]. simpl in S1.
  destruct r2 as [|c r3]; [discriminate|].
  destruct (Ascii.eqb c "["); [|discriminate].
  pose proof (span_app not_rbracket r3) as S2.
  injection H as <-.
  exists (snd (span not_rbracket r3)). split.
  - rewrite P, S1. rewrite S2 at 1.
    repeat (rewrite <- app_assoc; simpl). reflexivity.
  - intros E. apply (f_equal (@length ascii)) in E.
    rewrite !length_app in E. simpl in E. lia.
Qed.

Lemma sub_from_match (s m r : text) :
  match_list list_name s = Some m -> s = m ++ r ->
  sub_from list_name repl 0 s = expand repl m ++ sub_from list_name repl 0 r.
Proof.
  intros M E.
  destruct (match_list_prefix _ _ M) as (_ & _ & Hm).
  destruct m as [|c m]; [congruence|]. subst s.
  simpl app. rewrite sub_from_cons.
  simpl app in M. rewrite M.
  replace (length (c :: m) - 1) with (length m) by (simpl; lia).
  now rewrite sub_from_skip.
Qed.

Lemma sub_from_miss (c : ascii) (rest : text) :
  match_list list_name (c :: rest) = None ->
  sub_from list_name repl 0 (c :: rest) = c :: sub_from list_name repl 0 rest.
Proof. intros M. now rewrite sub_from_cons, M. Qed.

Lemma match_list_no_prefix (s : text) :
  strip_prefix (list_name ++ str ":") s = None -> match_list list_name s = None.
Proof. unfold match_list. now intros ->. Qed.

(** The text before the first [list_name:] is copied. *)
Lemma sub_from_before (before after : text) :
  contains (list_name ++ str ":") (before ++ list_name) = false ->
  sub_from list_name repl 0 (before ++ list_name ++ str ":" ++ after) =
  before ++ sub_from list_name repl 0 (list_name ++ str ":" ++ after).
Proof.
  induction before as [|c before IH]; intros H; [reflexivity|].
  rewrite <- !app_comm_cons. rewrite sub_from_miss.
  - f_equal. apply IH. eapply contains_tail. exact H.
  - apply match_list_no_prefix.
    replace (c :: before ++ list_name ++ str ":" ++ after)
      with ((c :: before ++ list_name) ++ str ":" ++ after)
      by (now rewrite <- !app_comm_cons, <- app_assoc).
    apply strip_prefix_None_app.
    + apply contains_head. exact H.
    + simpl. rewrite !length_app. simpl. lia.
Qed.

(** A directive: the name, a colon, white space, an opening bracket and
    a body without closing bracket, up to a closing bracket. *)
Lemma match_list_directive (ws body after : text) :
  forallb is_space ws = true -> forallb not_rbracket body = true ->
  match_list list_name
    (list_name ++ str ":" ++ ws ++ str "[" ++ body ++ str "]" ++ after) =
  Some (list_name ++ str ":" ++ ws ++ str "[" ++ body).
Proof.
  intros Hws Hbody. unfold match_list.
  replace (list_name ++ str ":" ++ ws ++ str "[" ++ body ++ str "]" ++ after)
    with ((list_name ++ str ":")
            ++ ws ++ str "[" ++ body ++ str "]" ++ after)
    by now rewrite <- app_assoc.
  rewrite strip_prefix_app.
  rewrite (span_exact is_space ws (str "[" ++ body ++ str "]" ++ after))
    by (assumption || reflexivity).
  change (str "[" ++ body ++ str "]" ++ after)
    with ("["%char :: body ++ str "]" ++ after).
  cbv beta iota. change (Ascii.eqb "[" "[") with true. cbv iota.
  rewrite (span_exact not_rbracket body (str "]" ++ after))
    by (assumption || reflexivity).
  reflexivity.
Qed.

Lemma sub_from_directive (before ws body after : text) :
  contains (list_name ++ str ":") (before ++ list_name) = false ->
  forallb is_space ws = true -> forallb not_rbracket body = true ->
  sub_from list_name repl 0
    (before ++ list_name ++ str ":" ++ ws ++ str "[" ++ body
       ++ str "]" ++ after) =
  before ++ expand repl (list_name ++ str ":" ++ ws ++ str "[" ++ body)
    ++ sub_from list_name repl 0 (str "]" ++ after).
Proof.
  intros Hb Hws Hbody.
  rewrite sub_from_before by exact Hb. f_equal.
  apply sub_from_match.
  - now apply match_list_directive.
  - now repeat (rewrite <- app_assoc; simpl).
Qed.

End ListFacts.

Section CountFacts.

Import Synth.

Variable list_name : text.

Lemma count_lists_from_cons (skip : nat) (c : ascii) (rest : text) :
  count_lists_from list_name skip (c :: rest) =
  match skip with
  | S k => count_lists_from list_name k rest
  | O =>
      match match_list list_name (c :: rest) with
      | Some m => S (count_lists_from list_name (length m - 1) rest)
      | None => count_lists_from list_name 0 rest
      end
  end.
Proof. reflexivity. Qed.

(** Without a match the substitution copies the text. *)
Lemma replace_lists_none (r content : text) :
  count_lists list_name content = 0 ->
  replace_lists list_name r content = content.
Proof.
  unfold count_lists, replace_lists.
  induction content as [|c rest IH]; intros H; [reflexivity|].
  rewrite count_lists_from_cons in H. rewrite sub_from_cons.
  destruct (match_list list_name (c :: rest)); [discriminate|].
  now rewrite IH.
Qed.

(** A text without [list_name:] holds no match. *)
Lemma count_lists_absent (content : text) :
  contains (list_name ++ str ":") content = false ->
  count_lists list_name content = 0.
Proof.
  unfold count_lists.
  induction content as [|c rest IH]; intros H; [reflexivity|].
  rewrite count_lists_from_cons, match_list_no_prefix.
  - apply IH. eapply contains_tail. exact H.
  - apply contains_head. exact H.
Qed.

(** With a match the text changes: up to the first match it is copied,
    and where the match began stands the first character of the
    replacement. *)
Lemma replace_lists_first (x : ascii) (r content : text) :
  unlike list_name x ->
  count_lists list_name content <> 0 ->
  exists pre c tl tl',
    content = pre ++ c :: tl
    /\ c <> x
    /\ replace_lists list_name (x :: r) content = pre ++ x :: tl'.
Proof.
  intros U. unfold count_lists, replace_lists.
  induction content as [|a rest IH]; intros H;
    [exfalso; apply H; reflexivity|].
  rewrite count_lists_from_cons in H. rewrite sub_from_cons.
  destruct (match_list list_name (a :: rest)) as [m|] eqn:M.
  - exists [], a, rest. eexists. split; [reflexivity|]. split.
    + intros ->. rewrite match_list_no_prefix in M by apply U. discriminate.
    + rewrite expand_literal. reflexivity.
  - destruct (IH H) as (pre & c & tl & tl' & E & N & R).
    exists (a :: pre), c, tl, tl'. split; [now rewrite E|].
    split; [assumption|]. now rewrite R.
Qed.

(** A text in which [x] stands where another has [c] is not turned into
    that other text. *)
Lemma replace_lists_apart (x c : ascii) (r pre tl tl' : text) :
  unlike list_name x ->
  c <> x ->
  replace_lists list_name (x :: r) (pre ++ x :: tl') <> pre ++ c :: tl.
Proof.
  intros U N. unfold replace_lists.
  induction pre as [|a pre IH].
  - cbn [app]. rewrite sub_from_miss by apply match_list_no_prefix, U.
    congruence.
  - rewrite <- !app_comm_cons, sub_from_cons.
    destruct (match_list list_name (a :: pre ++ x :: tl')) as [m|] eqn:M.
    + rewrite expand_literal. cbn [app]. intros E. injection E as E _.
      subst a. rewrite match_list_no_prefix in M by apply U. discriminate.
    + intros E. injection E as E. now apply IH.
Qed.

End CountFacts.

Section ExtensionFacts.

Import Synth.

Lemma generate_new_config_lists (content : text) (new_remotes : dict) :
  backslash_free (join (str ", ") (keys new_remotes)) = true ->
  let r := replacement (join (str ", ") (keys new_remotes)) in
  generate_new_config content new_remotes =
  Some (replace_lists (str "master") r
          (replace_lists (str "remote") r
             (concat (add_remote_blocks (readlines content) new_remotes)))).
Proof.
  intros H r. unfold generate_new_config.
  now rewrite !append_to_list_replace by exact H.
Qed.

(** The text in front of the first match is copied. *)
Lemma sub_from_none_start (list_name : text) (repl : list tpl_item)
    (before rest : text) :
  none_start list_name (length before) (before ++ rest) = true ->
  sub_from list_name repl 0 (before ++ rest) =
  before ++ sub_from list_name repl 0 rest.
Proof.
  induction before as [|c before IH]; intros H; [reflexivity|].
  rewrite <- app_comm_cons in *. cbn [length none_start] in H.
  destruct (match_list list_name (c :: before ++ rest)) eqn:M;
    [discriminate|].
  rewrite sub_from_miss by exact M. now rewrite IH.
Qed.

End ExtensionFacts.

(** ** The synthesizer as a whole *)

Section SynthesizerClaims.

Import Synth.

(** A line that begins with a text free of newlines begins the lines
    of what follows it. *)
Lemma readlines_first (a : text) :
  a <> [] -> forallb (fun c => negb (Ascii.eqb c nl)) a = true ->
  forall r, exists l ls, readlines (a ++ r) = (a ++ l) :: ls.
Proof.
  induction a as [|c a IH]; intros Hne Ha r; [congruence|].
  simpl in Ha. apply andb_prop in Ha as [Hc Ha].
  apply negb_true_iff in Hc.
  rewrite <- app_comm_cons, readlines_cons, Hc.
  destruct a as [|c' a].
  - simpl. destruct (readlines r) as [|l ls]; [now exists [], []|].
    now exists l, ls.
  - destruct (IH ltac:(discriminate) Ha r) as (l & ls & E).
    rewrite E. now exists l, ls.
Qed.

(** The anchor lies within one line: a text that holds it has a line
    that holds it. *)
Lemma no_anchor_absent (content : text) :
  no_anchor (readlines content) = true -> contains anchor content = false.
Proof.
  induction content as [|c rest IH]; intros H; [reflexivity|].
  rewrite contains_cons.
  destruct (strip_prefix anchor (c :: rest)) as [r|] eqn:P.
  - exfalso. apply strip_prefix_Some in P.
    destruct (readlines_first anchor ltac:(discriminate) eq_refl r)
      as (l & ls & E).
    rewrite P, E in H. unfold no_anchor in H. cbn [forallb] in H.
    rewrite contains_prefix in H. discriminate.
  - apply IH. rewrite readlines_cons in H.
    destruct (Ascii.eqb c nl).
    + unfold no_anchor in H. cbn [forallb] in H.
      apply andb_prop in H as [_ H]. exact H.
    + destruct (readlines rest) as [|l ls]; [reflexivity|].
      unfold no_anchor in *. cbn [forallb] in *.
      apply andb_prop in H as [Hl H].
      rewrite H, andb_true_r.
      apply negb_true_iff in Hl. apply negb_true_iff.
      eapply contains_tail. exact Hl.
Qed.

(** A document that holds the anchor has a first anchor line. *)
Lemma anchor_line_exists (content : text) :
  contains anchor content = true ->
  exists pre line post,
    readlines content = pre ++ line :: post
    /\ no_anchor pre = true
    /\ contains anchor line = true.
Proof.
  intros H.
  assert (N : no_anchor (readlines content) = false).
  { destruct (no_anchor (readlines content)) eqn:E; [|reflexivity].
    apply no_anchor_absent in E. congruence. }
  clear H. induction (readlines content) as [|l ls IH]; [discriminate|].
  destruct (contains anchor l) eqn:E.
  - now exists [], l, ls.
  - unfold no_anchor in N. cbn [forallb] in N. rewrite E in N.
    destruct (IH N) as (pre & line & post & -> & Hpre & Hline).
    exists (l :: pre), line, post. repeat split; try assumption.
    unfold no_anchor. cbn [forallb]. rewrite E. exact Hpre.
Qed.

(** Without an anchor line there is no [remote] list to replace. *)
Lemma remote_lists_need_anchor (content r : text) :
  no_anchor (readlines content) = true ->
  replace_lists (str "remote") r content = content.
Proof.
  intros H. apply replace_lists_none, count_lists_absent.
  apply no_anchor_absent. exact H.
Qed.

Lemma backslash_free_app (a b : text) :
  backslash_free (a ++ b) = backslash_free a && backslash_free b.
Proof. apply forallb_app. Qed.

Lemma unlike_soh_remote : unlike (str "remote") (ascii_of_nat 1).
Proof. intros rest. reflexivity. Qed.

Lemma unlike_soh_master : unlike (str "master") (ascii_of_nat 1).
Proof. intros rest. reflexivity. Qed.

(** C2 (as the code has it).  With an empty missing set the synthesizer
    inserts no remote block: the lines go unchanged into the two
    substitutions.  What it returns is the document itself exactly when
    the document holds no match of the [remote] list pattern and none
    of the [master] list pattern. *)
Theorem empty_missing_set (content : text) :
  add_remote_blocks (readlines content) [] = readlines content
  /\ (generate_new_config content [] = Some content <->
      count_lists (str "remote") content = 0
      /\ count_lists (str "master") content = 0).
Proof.
  split; [apply add_remote_blocks_empty|].
  rewrite generate_new_config_lists by reflexivity.
  rewrite add_remote_blocks_empty, concat_readlines.
  cbn [keys map join]. unfold replacement.
  set (r := str ", " ++ []). split.
  - intros H. injection H as H.
    destruct (Nat.eq_dec (count_lists (str "remote") content) 0) as [R|R].
    + split; [exact R|]. rewrite (replace_lists_none _ _ _ R) in H.
      destruct (Nat.eq_dec (count_lists (str "master") content) 0) as [M|M];
        [exact M|exfalso].
      destruct (replace_lists_first (str "master") (ascii_of_nat 1) r content
                  unlike_soh_master M) as (pre & c & tl & tl' & E & N & F).
      rewrite F in H. rewrite E in H.
      apply app_inv_head in H. congruence.
    + exfalso.
      destruct (replace_lists_first (str "remote") (ascii_of_nat 1) r content
                  unlike_soh_remote R) as (pre & c & tl & tl' & E & N & F).
      rewrite F in H. rewrite E in H.
      revert H. apply replace_lists_apart; [apply unlike_soh_master|exact N].
  - intros [R M]. now rewrite (replace_lists_none _ _ _ R), replace_lists_none.
Qed.

End SynthesizerClaims.

(** ** Catalog Reader *)

Section CatalogFacts.

Import Catalog.

Lemma first_label_no_dot (zone_name : text) :
  contains (str ".") (first_label zone_name) = false.
Proof.
  induction zone_name as [|c rest IH]; [reflexivity|].
  simpl first_label. destruct (Ascii.eqb c ".") eqn:E; [reflexivity|].
  rewrite contains_cons, IH.
  change (strip_prefix (str ".") (c :: first_label rest))
    with (if Ascii.eqb "." c then Some (first_label rest) else None).
  rewrite Ascii.eqb_sym, E. reflexivity.
Qed.

Lemma first_label_split (zone_name : text) :
  zone_name = first_label zone_name
  \/ exists rest, zone_name = first_label zone_name ++ str "." ++ rest.
Proof.
  induction zone_name as [|c rest IH]; [now left|].
  simpl first_label. destruct (Ascii.eqb c ".") eqn:E.
  - apply Ascii.eqb_eq in E. subst c. right. now exists rest.
  - destruct IH as [IH|[r IH]].
    + left. now rewrite <- IH.
    + right. exists r. rewrite <- app_comm_cons. now rewrite <- IH.
Qed.

(** C5.  For a member zone named by a PTR record of a node that is
    neither the apex nor the version node, the reader derives the
    identifier [base-remote] and the address [site-base.dns.internal],
    where [base] is the first label of the zone name: what stands in
    front of its first dot.  The member [catalog-primary.internal.dns.]
    gives [catalog-primary-remote] at
    [site-catalog-primary.dns.internal]. *)
Theorem derivation_purity (name zone_name : text) :
  text_eqb name (str "version") = false ->
  text_eqb name (str "@") = false ->
  let base := first_label zone_name in
  contains (str ".") base = false
  /\ (zone_name = base \/ exists rest, zone_name = base ++ str "." ++ rest)
  /\ get_desired_remotes_from_catalog
       (Some [(name, [ {| rdtype := PTR; items := [zone_name] |} ])]) =
     Desired [(base ++ str "-remote",
               str "site-" ++ base ++ str ".dns.internal")]
  /\ add_item [] (str "catalog-primary.internal.dns.") =
       [(str "catalog-primary-remote",
         str "site-catalog-primary.dns.internal")].
Proof.
  intros Hv Ha base. split; [apply first_label_no_dot|].
  split; [apply first_label_split|]. split; [|reflexivity].
  unfold get_desired_remotes_from_catalog, desired_of_zone.
  cbn [fold_left add_node]. rewrite Hv, Ha. reflexivity.
Qed.

End CatalogFacts.

(** ** Convergence Driver *)

Section DriverFacts.

Import Parser Synth Catalog Driver.

(** The parser finds nothing, so every desired remote is missing. *)
Lemma missing_ids_all (desired_remotes : dict) (content : text) :
  missing_ids desired_remotes (remotes_of_content content) =
  keys desired_remotes.
Proof.
  rewrite remotes_of_content_nil. unfold missing_ids, mem. simpl.
  induction (keys desired_remotes) as [|k ks IH]; simpl; [reflexivity|].
  now rewrite IH.
Qed.

Ltac run_step :=
  cbn [main log result writes cluster_after bind ret stop fail emit api_call
       fst snd negb app filter is_write fold_left apply_event successful
       get_desired_remotes_from_catalog get_current_remotes_from_config].

Lemma main_shape (e : env) : run_shape (log e) (result e).
Proof.
  unfold log, result, main.
  destruct (incluster_config_loads e); run_step; [|constructor].
  destruct (xfr e) as [z|]; run_step; [|now constructor].
  destruct (knot_conf_file e) as [content|]; run_step; [|now constructor].
  destruct (missing_ids (desired_of_zone z) (remotes_of_content content));
    run_step; [constructor|].
  destruct (generate_new_config content _) as [k|]; run_step; [|constructor].
  destruct (read_config_map e); run_step; try now constructor.
  destruct (replace_config_map e); run_step; try now constructor.
  destruct (patch_stateful_set e); run_step; now constructor.
Qed.

Lemma log_after_quiet (e : env) (c : cluster) :
  writes e = [] -> cluster_after e c = c.
Proof.
  unfold writes, cluster_after.
  destruct (main_shape e); simpl; intros W; try reflexivity; discriminate.
Qed.

(** C6.  When the transfer of the catalog zone raises, the run makes no
    external write, leaves the cluster as it was and ends with success,
    no exception leaving the driver. *)
Theorem graceful_degradation (e : env) :
  xfr e = None ->
  writes e = []
  /\ successful (result e) = true
  /\ result e <> Uncaught
  /\ forall c, cluster_after e c = c.
Proof.
  intros H.
  assert (W : writes e = [] /\ successful (result e) = true).
  { unfold writes, log, result, main.
    destruct (incluster_config_loads e); run_step; [|now split].
    rewrite H. run_step. now split. }
  destruct W as [W S]. repeat split; try assumption.
  - intros U. rewrite U in S. discriminate.
  - intros c. now apply log_after_quiet.
Qed.

(** C7.  When the missing remote set is empty the run makes no storage
    write, sends no restart signal, returns, and leaves the cluster as
    it was. *)
Theorem no_op_on_empty_diff (e : env) (z : zone) (content : text) :
  incluster_config_loads e = true ->
  xfr e = Some z ->
  knot_conf_file e = Some content ->
  missing_ids (desired_of_zone z) (remotes_of_content content) = [] ->
  log e = []
  /\ result e = Returned
  /\ forall c, cluster_after e c = c.
Proof.
  intros Hk Hx Hf Hm.
  assert (L : log e = [] /\ result e = Returned).
  { unfold log, result, main. rewrite Hk, Hx, Hf. run_step.
    rewrite Hm. run_step. now split. }
  destruct L as [L R]. repeat split; try assumption.
  intros c. unfold cluster_after. now rewrite L.
Qed.

(** C8.  A failure that the driver handles is the last thing of its
    run: nothing follows it, the run ends with success and no restart
    is signalled.  When the storage rejects the update the run has made
    no write at all and the stored document is the old one. *)
Theorem early_return_on_failure (e : env) (f : failure)
    (before after : list event) :
  log e = before ++ Failed f :: after ->
  after = []
  /\ successful (result e) = true
  /\ (forall t, ~ In (RestartSignalled t) (log e))
  /\ (f <> RestartSignalFailure ->
      writes e = [] /\ forall c, cluster_after e c = c).
Proof.
  intros H. pose proof (log_after_quiet e) as Q.
  unfold writes in *. destruct (main_shape e) as [o|g o S|k|k|k t].
  - now destruct before.
  - destruct before as [|b before]; [|now destruct before].
    injection H as -> <-. repeat split; auto.
    intros t [E|[]]. discriminate.
  - destruct before as [|b [|b' before]]; try discriminate.
    + injection H as _ -> <-. repeat split; try now auto.
      intros t [E|[E|[]]]; discriminate.
    + injection H as _ H. now destruct before.
  - destruct before as [|b before]; [discriminate|].
    injection H as _ H. now destruct before.
  - destruct before as [|b [|b' before]]; try discriminate.
    injection H as _ H. now destruct before.
Qed.

(** Each failure condition gives its event. *)
Lemma failure_events (e : env) :
  incluster_config_loads e = true ->
  (xfr e = None -> log e = [Failed TransferUnavailable])
  /\ (xfr e <> None -> knot_conf_file e = None ->
      log e = [Failed MissingDocument])
  /\ (replace_config_map e = ApiException -> writes e = []).
Proof.
  intros Hk. unfold writes, log, main. rewrite Hk. run_step.
  repeat split.
  - intros ->. reflexivity.
  - intros Hx ->. destruct (xfr e); [reflexivity|congruence].
  - intros ->. destruct (xfr e) as [z|]; run_step; [|reflexivity].
    destruct (knot_conf_file e) as [content|]; run_step; [|reflexivity].
    destruct (missing_ids _ _); run_step; [reflexivity|].
    destruct (generate_new_config content _); run_step; [|reflexivity].
    destruct (read_config_map e); reflexivity.
Qed.

Lemma text_eqb_refl (a : text) : text_eqb a a = true.
Proof. unfold text_eqb. now destruct (list_eq_dec ascii_dec a a). Qed.

Lemma mem_keys (d : dict) (item : text * text) :
  In item d -> mem (fst item) (keys d) = true.
Proof.
  intros H. unfold mem. apply existsb_exists. exists (fst item). split.
  - unfold keys. now apply in_map.
  - apply text_eqb_refl.
Qed.

Lemma restrict_all (d : dict) : restrict d (keys d) = d.
Proof.
  unfold restrict. apply forallb_filter_id. apply forallb_forall.
  intros item H. now apply mem_keys.
Qed.

(** Whatever the document holds, a run that meets no failure and whose
    catalog names a member zone replaces the ConfigMap and signals a
    restart: the driver never finds the configuration up to date. *)
Lemma never_up_to_date (z : zone) (file new_knot_conf : text) :
  desired_of_zone z <> [] ->
  generate_new_config file (desired_of_zone z) = Some new_knot_conf ->
  log (Sample.calm z file) =
  [ConfigMapReplaced new_knot_conf;
   RestartSignalled (utcnow (Sample.calm z file))].
Proof.
  intros Hd Hg. unfold log, main, Sample.calm.
  cbn [incluster_config_loads xfr knot_conf_file read_config_map
       replace_config_map patch_stateful_set utcnow negb
       get_desired_remotes_from_catalog get_current_remotes_from_config
       bind ret stop fail emit api_call fst snd app].
  rewrite missing_ids_all.
  destruct (desired_of_zone z) as [|item d] eqn:E; [congruence|].
  cbn [keys map].
  change (fst item :: map fst d) with (keys (item :: d)).
  rewrite restrict_all, Hg. reflexivity.
Qed.
End DriverFacts.


(** ** The code at concrete inputs *)

Section Runs.

Import Parser Synth Catalog Driver.

(** C4 (the code at the failing input).  The remote section of the
    sample lists [hub-remote] behind the marker of the parser's own
    pattern, and the parser returns the empty set: the section ends in
    front of the first [id:], which is itself a match of [\w+:].  The
    pattern alone does find the identifier, and the parser returns the
    empty set for every document. *)
Theorem parser_misses_listed_remote :
  search_remote_section Sample.knot_conf_listed = Some (nl :: str "  -    ")
  /\ findall_ids (str "-    id:  hub-remote") = [str "hub-remote"]
  /\ get_current_remotes_from_config (Some Sample.knot_conf_listed) = Some []
  /\ forall content, get_current_remotes_from_config (Some content) = Some [].
Proof.
  split; [reflexivity|]. split; [reflexivity|]. split; [reflexivity|].
  intros content. unfold get_current_remotes_from_config.
  now rewrite remotes_of_content_nil.
Qed.

(** C1 (the code at the failing input).  A first run on the sample
    configuration writes a document with the block of the missing
    remote and signals a restart; a second run on that document, with
    the same catalog, finds no remote in it, takes the same remote for
    missing and writes and signals again. *)
Theorem second_run_writes_again :
  exists first second : text,
    log (Sample.calm Sample.catalog Sample.knot_conf) =
      [ConfigMapReplaced first; RestartSignalled (str "2024-05-01T00:00:00")]
    /\ contains (str "      - id: catalog-primary-remote") first = true
    /\ get_current_remotes_from_config (Some first) = Some []
    /\ missing_ids (desired_of_zone Sample.catalog)
         (remotes_of_content first) = [str "catalog-primary-remote"]
    /\ log (Sample.calm Sample.catalog first) =
         [ConfigMapReplaced second;
          RestartSignalled (str "2024-05-01T00:00:00")]
    /\ second <> first.
Proof.
  eexists. eexists.
  split; [vm_compute; reflexivity|].
  split; [vm_compute; reflexivity|].
  split; [vm_compute; reflexivity|].
  split; [vm_compute; reflexivity|].
  split; [vm_compute; reflexivity|].
  intros E. apply (f_equal (@length ascii)) in E. vm_compute in E.
  discriminate.
Qed.

(** C2 (counterexample).  On the sample configuration the synthesizer
    with an empty missing set returns a different text. *)
Lemma empty_missing_set_not_identity :
  ~ (generate_new_config Sample.knot_conf [] = Some Sample.knot_conf).
Proof.
  intros E. apply (f_equal (option_map (@length ascii))) in E.
  vm_compute in E. discriminate.
Qed.

(** With an empty map the head of either list gives way to the
    character of code 1, a comma and a space. *)
Example synthesized_for_empty_map :
  generate_new_config Sample.knot_conf [] = Some Cases.synthesized_empty.
Proof. vm_compute. reflexivity. Qed.

(** C3 (the code at the failing input).  For the sample configuration
    and the two sample remotes the synthesizer inserts one block for
    each remote behind the anchor line, but appends no identifier to a
    list: where the [remote] list and the [master] list began, with
    their names and their earlier entries, stand the character of code
    1, a comma and the two identifiers. *)
Theorem two_remotes_lists_replaced :
  generate_new_config Sample.knot_conf Sample.two_remotes =
    Some Cases.synthesized_two
  /\ contains (str "remote: [hub-remote") Cases.synthesized_two = false
  /\ contains (str "master: [hub-remote") Cases.synthesized_two = false
  /\ contains (str "hub-remote, east-remote") Cases.synthesized_two = false.
Proof. repeat split; vm_compute; reflexivity. Qed.

(** C9 (the code at the failing input).  For the sample configuration
    without remote section no block is inserted, and the [master] list
    is not extended: its name and its entry give way to the character
    of code 1, a comma and the identifiers. *)
Theorem missing_anchor_list_replaced :
  no_anchor (readlines Sample.knot_conf_no_anchor) = true
  /\ add_remote_blocks (readlines Sample.knot_conf_no_anchor)
       Sample.two_remotes = readlines Sample.knot_conf_no_anchor
  /\ generate_new_config Sample.knot_conf_no_anchor Sample.two_remotes =
       Some Cases.synthesized_no_anchor
  /\ contains (str "master: [hub-remote") Cases.synthesized_no_anchor = false.
Proof. repeat split; vm_compute; reflexivity. Qed.

(** C10 (the code at the failing input).  For the sample configuration
    and three remotes the blocks stand behind the anchor line in the
    reverse of the order of the map, and the identifiers are joined in
    the order of the map; but they are not appended to the lists, they
    stand in place of the heads of the lists. *)
Theorem three_remotes_order :
  add_remote_blocks (readlines Sample.knot_conf) Cases.three_remotes =
    Cases.lines_with_three_blocks
  /\ join (str ", ") (keys Cases.three_remotes) =
       str "north-remote, east-remote, west-remote"
  /\ generate_new_config Sample.knot_conf Cases.three_remotes =
       Some Cases.synthesized_three
  /\ contains (str "hub-remote, north-remote") Cases.synthesized_three = false.
Proof. repeat split; vm_compute; reflexivity. Qed.

End Runs.

(** ** The statements at the sample inputs *)

Section Witnesses.

Import Parser Synth Catalog Driver.

(** C5 at the member node of the sample catalog. *)
Lemma derivation_purity_witness :
  text_eqb (str "7f3a.zones") (str "version") = false
  /\ text_eqb (str "7f3a.zones") (str "@") = false
  /\ get_desired_remotes_from_catalog
       (Some [(str "7f3a.zones",
               [ {| rdtype := PTR;
                    items := [str "catalog-primary.internal.dns."] |} ])]) =
     Desired [(str "catalog-primary-remote",
               str "site-catalog-primary.dns.internal")].
Proof.
  split; [reflexivity|]. split; [reflexivity|].
  apply (derivation_purity (str "7f3a.zones")
           (str "catalog-primary.internal.dns.") eq_refl eq_refl).
Defined.

(** C6 at the run whose transfer fails. *)
Lemma graceful_degradation_witness :
  xfr Sample.transfer_down = None
  /\ writes Sample.transfer_down = []
  /\ successful (result Sample.transfer_down) = true.
Proof.
  split; [reflexivity|].
  destruct (graceful_degradation Sample.transfer_down eq_refl)
    as (W & S & _).
  split; assumption.
Defined.

(** C7 at a run whose catalog names no member zone. *)
Lemma no_op_on_empty_diff_witness :
  missing_ids (desired_of_zone [])
    (remotes_of_content Sample.knot_conf) = []
  /\ log (Sample.calm [] Sample.knot_conf) = [].
Proof.
  split; [reflexivity|].
  apply (no_op_on_empty_diff (Sample.calm [] Sample.knot_conf) []
           Sample.knot_conf); reflexivity.
Defined.

(** C8 at the run whose storage rejects the update. *)
Lemma early_return_on_failure_witness :
  log Sample.storage_rejects = [] ++ Failed StorageWriteFailure :: []
  /\ writes Sample.storage_rejects = [].
Proof.
  split; [reflexivity|].
  apply (early_return_on_failure Sample.storage_rejects StorageWriteFailure
           [] []); [reflexivity|discriminate].
Defined.

End Witnesses.

(** * Further properties *)

(** ** Catalog Reader: the dictionary of the desired remotes *)

Section CatalogMore.

Import Catalog.

Lemma text_eqb_eq (a b : text) : text_eqb a b = true <-> a = b.
Proof.
  unfold text_eqb. destruct (list_eq_dec ascii_dec a b); split; congruence.
Qed.

Lemma dict_set_In (k v k0 v0 : text) (d : dict) :
  In (k, v) (dict_set k0 v0 d) -> (k, v) = (k0, v0) \/ In (k, v) d.
Proof.
  induction d as [|[k' v'] d IH]; simpl.
  - intros [E|[]]. now left.
  - destruct (text_eqb k' k0).
    + intros [E|H]; [now left|right; now right].
    + intros [E|H]; [right; now left|].
      destruct (IH H) as [E|H']; [now left|right; now right].
Qed.

Lemma dict_set_In_new (k0 v0 : text) (d : dict) :
  In (k0, v0) (dict_set k0 v0 d).
Proof.
  induction d as [|[k' v'] d IH]; simpl; [now left|].
  destruct (text_eqb k' k0); [now left|now right].
Qed.

Lemma dict_set_In_kept (k v k0 v0 : text) (d : dict) :
  In (k, v) d -> (k = k0 -> v = v0) -> In (k, v) (dict_set k0 v0 d).
Proof.
  intros H Hv. induction d as [|[k' v'] d IH]; simpl in *; [contradiction|].
  destruct (text_eqb k' k0) eqn:E.
  - apply text_eqb_eq in E. subst k'. destruct H as [H|H].
    + injection H as -> ->. left. now rewrite Hv.
    + now right.
  - destruct H as [H|H]; [now left|right; now apply IH].
Qed.

Lemma dict_set_keys_In (k k0 v0 : text) (d : dict) :
  In k (keys (dict_set k0 v0 d)) -> k = k0 \/ In k (keys d).
Proof.
  unfold keys. intros H. apply in_map_iff in H as ([k' v'] & <- & H).
  apply dict_set_In in H as [E|H].
  - injection E as -> _. now left.
  - right. simpl. change k' with (fst (k', v')). now apply in_map.
Qed.

Lemma dict_set_NoDup (k0 v0 : text) (d : dict) :
  NoDup (keys d) -> NoDup (keys (dict_set k0 v0 d)).
Proof.
  induction d as [|[k' v'] d IH]; simpl; intros H.
  - constructor; [intros []|constructor].
  - inversion H as [|? ? Hn Hd]; subst.
    destruct (text_eqb k' k0) eqn:E.
    + apply text_eqb_eq in E. subst k'. simpl. now constructor.
    + simpl. constructor; [|now apply IH].
      intros Hin. apply dict_set_keys_In in Hin as [->|Hin]; [|contradiction].
      assert (T : text_eqb k0 k0 = true) by now apply text_eqb_eq.
      congruence.
Qed.

Lemma dict_set_twice (k v : text) (d : dict) :
  dict_set k v (dict_set k v d) = dict_set k v d.
Proof.
  assert (T : text_eqb k k = true) by now apply text_eqb_eq.
  induction d as [|[k' v'] d IH]; simpl; [now rewrite T|].
  destruct (text_eqb k' k) eqn:E; simpl.
  - now rewrite T.
  - now rewrite E, IH.
Qed.

Lemma add_item_entry (d : dict) (zone_name : text) :
  add_item d zone_name =
  dict_set (fst (entry_of zone_name)) (snd (entry_of zone_name)) d.
Proof. reflexivity. Qed.

Lemma add_node_cases (d : dict) (name : text) (rdatasets : list rdataset) :
  add_node d (name, rdatasets) =
  if reserved name then d else fold_left add_rdataset rdatasets d.
Proof.
  unfold add_node, reserved.
  destruct (text_eqb name (str "version") || text_eqb name (str "@"));
    [reflexivity|].
  now destruct rdatasets.
Qed.

Lemma entry_of_inj_value (a b : text) :
  fst (entry_of a) = fst (entry_of b) -> snd (entry_of a) = snd (entry_of b).
Proof.
  unfold entry_of, remote_id_of, fqdn_of. simpl. intros H.
  apply app_inv_tail in H. now rewrite H.
Qed.

(** *** What the folds keep and add *)

Lemma items_sound (e : text * text) (its : list text) :
  forall d, In e (fold_left add_item its d) ->
            In e d \/ exists zn, In zn its /\ e = entry_of zn.
Proof.
  induction its as [|zn its IH]; intros d H; [now left|].
  cbn [fold_left] in H. apply IH in H as [H|(zn' & Hin & E)].
  - destruct e as [k v]. rewrite add_item_entry in H.
    apply dict_set_In in H as [H|H]; [|now left].
    right. exists zn. split; [now left|].
    rewrite H. now destruct (entry_of zn).
  - right. exists zn'. split; [now right|assumption].
Qed.

Lemma rdatasets_sound (e : text * text) (rdatasets : list rdataset) :
  forall d, In e (fold_left add_rdataset rdatasets d) ->
            In e d \/ exists rds zn, In rds rdatasets /\ rdtype rds = PTR
                                     /\ In zn (items rds) /\ e = entry_of zn.
Proof.
  induction rdatasets as [|rds rest IH]; intros d H; [now left|].
  cbn [fold_left] in H. apply IH in H as [H|(r & zn & Hin & Ht & Hz & E)].
  - unfold add_rdataset in H. destruct (rdtype rds =? PTR) eqn:T; [|now left].
    apply Nat.eqb_eq in T.
    apply items_sound in H as [H|(zn & Hz & E)]; [now left|].
    right. exists rds, zn. repeat split; try assumption. now left.
  - right. exists r, zn. repeat split; try assumption. now right.
Qed.

Lemma zone_sound (e : text * text) (z : zone) :
  forall d, In e (fold_left add_node z d) ->
            In e d \/ exists zn, member_of z zn /\ e = entry_of zn.
Proof.
  induction z as [|[name rdatasets] z IH]; intros d H; [now left|].
  cbn [fold_left] in H. apply IH in H as [H|(zn & M & E)].
  - rewrite add_node_cases in H. destruct (reserved name) eqn:R; [now left|].
    apply rdatasets_sound in H as [H|(rds & zn & Hin & Ht & Hz & E)];
      [now left|].
    right. exists zn. split; [|assumption].
    exists name, rdatasets, rds. repeat split; try assumption. now left.
  - right. exists zn. split; [|assumption].
    destruct M as (n & rs & r & Hin & M). exists n, rs, r.
    split; [now right|assumption].
Qed.

Lemma add_item_keeps (zn zn' : text) (d : dict) :
  In (entry_of zn) d -> In (entry_of zn) (add_item d zn').
Proof.
  intros H. rewrite add_item_entry.
  destruct (entry_of zn) as [k v] eqn:E.
  apply dict_set_In_kept; [assumption|].
  intros K. pose proof (entry_of_inj_value zn zn') as I.
  rewrite E in I. simpl in I. now apply I.
Qed.

Lemma items_keep (zn : text) (its : list text) :
  forall d, In (entry_of zn) d -> In (entry_of zn) (fold_left add_item its d).
Proof.
  induction its as [|zn' its IH]; intros d H; [assumption|].
  cbn [fold_left]. apply IH. now apply add_item_keeps.
Qed.

Lemma items_complete (zn : text) (its : list text) :
  In zn its -> forall d, In (entry_of zn) (fold_left add_item its d).
Proof.
  induction its as [|zn' its IH]; intros H d; [contradiction|].
  cbn [fold_left]. destruct H as [->|H]; [|now apply IH].
  apply items_keep. rewrite add_item_entry.
  destruct (entry_of zn). apply dict_set_In_new.
Qed.

Lemma rdatasets_keep (zn : text) (rdatasets : list rdataset) :
  forall d, In (entry_of zn) d ->
            In (entry_of zn) (fold_left add_rdataset rdatasets d).
Proof.
  induction rdatasets as [|rds rest IH]; intros d H; [assumption|].
  cbn [fold_left]. apply IH. unfold add_rdataset.
  destruct (rdtype rds =? PTR); [now apply items_keep|assumption].
Qed.

Lemma zone_keep (zn : text) (z : zone) :
  forall d, In (entry_of zn) d -> In (entry_of zn) (fold_left add_node z d).
Proof.
  induction z as [|[name rdatasets] z IH]; intros d H; [assumption|].
  cbn [fold_left]. apply IH. rewrite add_node_cases.
  destruct (reserved name); [assumption|now apply rdatasets_keep].
Qed.

(** X1.  The identifiers of the desired remotes are pairwise
    different: the dictionary holds every identifier once, however
    often the catalog names a zone with that first label. *)
Theorem desired_ids_unique (z : zone) : NoDup (keys (desired_of_zone z)).
Proof.
  unfold desired_of_zone.
  assert (G : forall d, NoDup (keys d) -> NoDup (keys (fold_left add_node z d))).
  { induction z as [|[name rdatasets] z IH]; intros d H; [assumption|].
    cbn [fold_left]. apply IH. rewrite add_node_cases.
    destruct (reserved name); [assumption|].
    clear IH. revert d H.
    induction rdatasets as [|rds rest IHr]; intros d H; [assumption|].
    cbn [fold_left]. apply IHr. unfold add_rdataset.
    destruct (rdtype rds =? PTR); [|assumption].
    generalize dependent d.
    induction (items rds) as [|zn its IHi]; intros d H; [assumption|].
    cbn [fold_left]. apply IHi. rewrite add_item_entry. now apply dict_set_NoDup. }
  apply G. constructor.
Qed.

(** X2.  Every desired remote comes from a member zone: its identifier
    and its address are derived from the first label of the target of
    a PTR record that stands in a node other than the apex and the
    version node. *)
Theorem desired_from_members (z : zone) (remote_id fqdn : text) :
  In (remote_id, fqdn) (desired_of_zone z) ->
  exists zone_name,
    member_of z zone_name
    /\ remote_id = first_label zone_name ++ str "-remote"
    /\ fqdn = str "site-" ++ first_label zone_name ++ str ".dns.internal".
Proof.
  intros H. apply zone_sound in H as [[]|(zn & M & E)].
  exists zn. split; [assumption|]. now injection E.
Qed.

(** X3.  Every member zone is a desired remote: the target of a PTR
    record in a node other than the apex and the version node gives an
    entry with the identifier and the address of its first label. *)
Theorem members_are_desired (z : zone) (zone_name : text) :
  member_of z zone_name ->
  In (first_label zone_name ++ str "-remote",
      str "site-" ++ first_label zone_name ++ str ".dns.internal")
     (desired_of_zone z).
Proof.
  intros (name & rdatasets & rds & Hin & R & Hr & T & Hz).
  change (In (entry_of zone_name) (desired_of_zone z)).
  unfold desired_of_zone. generalize (@nil (text * text)).
  induction z as [|[n rs] z IH]; intros d; [contradiction|].
  cbn [fold_left]. destruct Hin as [E|Hin]; [|now apply IH].
  injection E as -> ->. apply zone_keep. rewrite add_node_cases, R.
  clear IH. revert d.
  induction rdatasets as [|r rest IHr]; intros d; [contradiction|].
  cbn [fold_left]. destruct Hr as [->|Hr]; [|now apply IHr].
  apply rdatasets_keep. unfold add_rdataset.
  rewrite T, Nat.eqb_refl. now apply items_complete.
Qed.

(** X4.  The apex, the version node and a node without PTR record set
    add nothing: the desired remotes are those of the zone without that
    node. *)
Theorem skipped_nodes (z1 z2 : zone) (name : text)
    (rdatasets : list rdataset) :
  reserved name || no_ptr rdatasets = true ->
  desired_of_zone (z1 ++ (name, rdatasets) :: z2) = desired_of_zone (z1 ++ z2).
Proof.
  intros H. unfold desired_of_zone. rewrite !fold_left_app.
  cbn [fold_left].
  f_equal. rewrite add_node_cases.
  destruct (reserved name); [reflexivity|]. simpl in H.
  generalize (fold_left add_node z1 []).
  induction rdatasets as [|rds rest IH]; intros d; [reflexivity|].
  unfold no_ptr in H. cbn [forallb] in H. apply andb_prop in H as [Hr H].
  cbn [fold_left]. unfold add_rdataset at 2.
  apply negb_true_iff in Hr. rewrite Hr. now apply IH.
Qed.

(** X5.  Two member zones with the same first label give one entry:
    the second assignment writes the same identifier and the same
    address over the first. *)
Theorem same_label_one_entry (d : dict) (zone_name zone_name' : text) :
  first_label zone_name = first_label zone_name' ->
  fold_left add_item [zone_name; zone_name'] d =
  fold_left add_item [zone_name] d.
Proof.
  intros H. cbn [fold_left]. unfold add_item. rewrite <- H.
  apply dict_set_twice.
Qed.

End CatalogMore.

(** ** Config Parser: the two patterns *)

Section ParserMore.

Import Parser.

Lemma search_before (before rest : text) :
  contains (str "remote:") (before ++ str "remote") = false ->
  search_remote_section (before ++ str "remote:" ++ rest) =
  Some (lazy_section rest).
Proof.
  induction before as [|c before IH]; intros H.
  - change ([] ++ str "remote:" ++ rest) with (str "remote:" ++ rest).
    destruct (str "remote:" ++ rest) as [|a s] eqn:E; [discriminate|].
    change (search_remote_section (a :: s))
      with (match strip_prefix (str "remote:") (a :: s) with
            | Some r => Some (lazy_section r)
            | None => search_remote_section s
            end).
    now rewrite <- E, strip_prefix_app.
  - rewrite <- !app_comm_cons.
    change (search_remote_section (c :: before ++ str "remote:" ++ rest))
      with (match strip_prefix (str "remote:")
                    (c :: before ++ str "remote:" ++ rest) with
            | Some r => Some (lazy_section r)
            | None => search_remote_section (before ++ str "remote:" ++ rest)
            end).
    replace (c :: before ++ str "remote:" ++ rest)
      with ((c :: before ++ str "remote") ++ str ":" ++ rest)
      by (rewrite <- !app_comm_cons, <- app_assoc; reflexivity).
    rewrite strip_prefix_None_app.
    + apply IH. eapply contains_tail. exact H.
    + apply contains_head. exact H.
    + simpl. rewrite length_app. simpl. lia.
Qed.

Lemma word_colon_key (key rest : text) :
  key <> [] -> forallb is_word key = true ->
  word_colon (key ++ str ":" ++ rest) = true.
Proof.
  intros Hne Hk. unfold word_colon.
  rewrite (span_exact is_word key (str ":" ++ rest)) by (assumption || reflexivity).
  destruct key; [congruence|reflexivity].
Qed.

Lemma lazy_section_gap (gap key rest : text) :
  forallb (fun c => negb (is_word c)) gap = true ->
  key <> [] -> forallb is_word key = true ->
  lazy_section (gap ++ key ++ str ":" ++ rest) = gap.
Proof.
  intros Hg Hne Hk. induction gap as [|c gap IH].
  - destruct key as [|k key]; [congruence|].
    change ([] ++ (k :: key) ++ str ":" ++ rest)
      with (k :: (key ++ str ":" ++ rest)).
    rewrite lazy_section_cons.
    change (k :: key ++ str ":" ++ rest) with ((k :: key) ++ str ":" ++ rest).
    now rewrite word_colon_key.
  - cbn [forallb] in Hg. apply andb_prop in Hg as [Hc Hg].
    apply negb_true_iff in Hc.
    rewrite <- app_comm_cons, lazy_section_cons.
    assert (W : word_colon (c :: gap ++ key ++ str ":" ++ rest) = false).
    { unfold word_colon. cbn [span]. now rewrite Hc. }
    assert (D : at_dollar (c :: gap ++ key ++ str ":" ++ rest) = false).
    { unfold at_dollar.
      destruct (gap ++ key ++ str ":" ++ rest) eqn:E; [|reflexivity].
      apply app_eq_nil in E as [_ E]. apply app_eq_nil in E as [E _].
      congruence. }
    rewrite W, D. cbn [orb]. now rewrite IH.
Qed.

(** X6.  The section that the parser hands to [findall] is the text
    between the first [remote:] and the first key that follows it: for
    a document with white space or punctuation behind the anchor and
    then a word with a colon, it is that gap, so no line of the section
    body is part of it. *)
Theorem section_ends_at_first_key (before gap key rest : text) :
  contains (str "remote:") (before ++ str "remote") = false ->
  forallb (fun c => negb (is_word c)) gap = true ->
  key <> [] ->
  forallb is_word key = true ->
  search_remote_section
    (before ++ str "remote:" ++ gap ++ key ++ str ":" ++ rest) = Some gap.
Proof.
  intros Hb Hg Hne Hk.
  rewrite search_before by exact Hb. f_equal.
  now apply lazy_section_gap.
Qed.

Lemma findall_ids_from_cons (skip : nat) (c : ascii) (s : text) :
  findall_ids_from skip (c :: s) =
  match skip with
  | S k => findall_ids_from k s
  | O =>
      match match_id (c :: s) with
      | Some tok =>
          tok :: findall_ids_from (length id_marker + length tok - 1) s
      | None => findall_ids_from 0 s
      end
  end.
Proof. reflexivity. Qed.

Lemma findall_ids_skip (passed rest : text) :
  findall_ids_from (length passed) (passed ++ rest) = findall_ids_from 0 rest.
Proof.
  induction passed as [|c passed IH]; [|exact IH].
  destruct rest; reflexivity.
Qed.

Lemma findall_ids_indent (indent rest : text) :
  no_dash indent = true ->
  findall_ids_from 0 (indent ++ rest) = findall_ids_from 0 rest.
Proof.
  induction indent as [|c indent IH]; intros H; [reflexivity|].
  unfold no_dash in H. cbn [forallb] in H. apply andb_prop in H as [Hc H].
  rewrite <- app_comm_cons, findall_ids_from_cons.
  assert (M : match_id (c :: indent ++ rest) = None).
  { unfold match_id.
    change (strip_prefix id_marker (c :: indent ++ rest))
      with (if Ascii.eqb "-" c
            then strip_prefix (str "    id:  ") (indent ++ rest) else None).
    apply negb_true_iff in Hc. now rewrite Ascii.eqb_sym, Hc. }
  rewrite M. now apply IH.
Qed.

Lemma match_id_token (tok rest : text) :
  is_token tok = true ->
  match_id (id_marker ++ tok ++ nl :: rest) = Some tok.
Proof.
  intros H. unfold match_id. rewrite strip_prefix_app.
  destruct tok as [|c tok]; [discriminate|].
  rewrite (span_exact is_nonspace (c :: tok) (nl :: rest))
    by (assumption || reflexivity).
  reflexivity.
Qed.

Lemma findall_ids_line (indent tok rest : text) :
  no_dash indent = true -> is_token tok = true ->
  findall_ids_from 0 (id_line indent tok ++ rest) =
  tok :: findall_ids_from 0 rest.
Proof.
  intros Hi Ht. unfold id_line. rewrite <- !app_assoc.
  rewrite findall_ids_indent by exact Hi.
  change (id_marker ++ tok ++ [nl] ++ rest)
    with ("-"%char :: (str "    id:  " ++ tok ++ nl :: rest)).
  rewrite findall_ids_from_cons.
  change ("-"%char :: (str "    id:  " ++ tok ++ nl :: rest))
    with (id_marker ++ tok ++ nl :: rest).
  rewrite match_id_token by exact Ht. f_equal.
  replace (length id_marker + length tok - 1)
    with (length (str "    id:  " ++ tok))
    by (rewrite length_app; reflexivity).
  replace (str "    id:  " ++ tok ++ nl :: rest)
    with ((str "    id:  " ++ tok) ++ nl :: rest)
    by now rewrite <- app_assoc.
  rewrite findall_ids_skip.
  now rewrite findall_ids_from_cons.
Qed.

(** X7.  The pattern of the identifiers by itself reads a remote
    section back: on lines that each hold an indentation, the marker
    and an identifier, [findall] returns the identifiers, all of them
    and in their order. *)
Theorem findall_ids_reads_lines (indent : text) (toks : list text) :
  no_dash indent = true ->
  forallb is_token toks = true ->
  findall_ids (concat (map (id_line indent) toks)) = toks.
Proof.
  intros Hi Ht. unfold findall_ids.
  induction toks as [|tok toks IH]; [reflexivity|].
  cbn [forallb] in Ht. apply andb_prop in Ht as [H Ht].
  cbn [map concat]. rewrite findall_ids_line by assumption.
  now rewrite IH.
Qed.

End ParserMore.

(** ** Config Synthesizer: lines *)

Section SynthMore.

Import Synth.

Lemma closed_line_cons (c : ascii) (line : text) :
  not_nl c = true -> closed_line line = true ->
  closed_line (c :: line) = true.
Proof.
  intros Hc Hl. destruct line as [|d line]; [discriminate|].
  change (closed_line (c :: d :: line))
    with (not_nl c && closed_line (d :: line)).
  now rewrite Hc, Hl.
Qed.

Lemma open_line_cons (c : ascii) (line : text) :
  not_nl c = true -> open_line line = true -> open_line (c :: line) = true.
Proof.
  intros Hc Hl. destruct line as [|d line]; [discriminate|].
  unfold open_line in *. cbn [forallb] in *. now rewrite Hc, Hl.
Qed.

Lemma proper_lines_cons (line : text) (lines : list text) :
  proper_lines (line :: lines) =
  match lines with
  | [] => closed_line line || open_line line
  | _ :: _ => closed_line line && proper_lines lines
  end.
Proof. now destruct lines. Qed.

(** X8.  [readlines] cuts the text behind every newline and nowhere
    else: every line ends in its one newline, but for a last line
    without one, and the lines joined again are the text. *)
Theorem readlines_cuts_at_newlines (content : text) :
  proper_lines (readlines content) = true
  /\ concat (readlines content) = content.
Proof.
  split; [|apply concat_readlines].
  induction content as [|c rest IH]; [reflexivity|].
  rewrite readlines_cons. destruct (Ascii.eqb c nl) eqn:E.
  - rewrite proper_lines_cons.
    assert (C : closed_line [c] = true) by exact E.
    rewrite C. now destruct (readlines rest).
  - assert (N : not_nl c = true) by (unfold not_nl; now rewrite E).
    destruct (readlines rest) as [|line lines].
    { rewrite proper_lines_cons. unfold open_line. cbn [forallb].
      rewrite N. apply orb_true_r. }
    rewrite proper_lines_cons in *.
    destruct lines as [|l lines].
    + apply orb_prop in IH as [IH|IH].
      * now rewrite closed_line_cons.
      * rewrite (open_line_cons _ _ N IH). apply orb_true_r.
    + apply andb_prop in IH as [IH1 IH2].
      now rewrite closed_line_cons, IH2.
Qed.

Lemma readlines_closed (line rest : text) :
  closed_line line = true -> readlines (line ++ rest) = line :: readlines rest.
Proof.
  induction line as [|c line IH]; intros H; [discriminate|].
  rewrite <- app_comm_cons, readlines_cons.
  destruct line as [|d line].
  - change (closed_line [c]) with (Ascii.eqb c nl) in H. now rewrite H.
  - change (closed_line (c :: d :: line))
      with (not_nl c && closed_line (d :: line)) in H.
    apply andb_prop in H as [Hc H]. apply negb_true_iff in Hc.
    rewrite Hc, (IH H). reflexivity.
Qed.

Lemma readlines_open (line : text) :
  open_line line = true -> readlines line = [line].
Proof.
  induction line as [|c line IH]; intros H; [discriminate|].
  unfold open_line in H. cbn [forallb] in H. apply andb_prop in H as [Hc H].
  apply negb_true_iff in Hc. rewrite readlines_cons, Hc.
  destruct line as [|d line]; [reflexivity|].
  now rewrite IH.
Qed.

(** X9.  Lines that are cut the way [readlines] cuts are read back as
    they are: joining them and reading the lines again returns them. *)
Theorem readlines_of_joined_lines (lines : list text) :
  proper_lines lines = true -> readlines (concat lines) = lines.
Proof.
  induction lines as [|line lines IH]; intros H; [reflexivity|].
  rewrite proper_lines_cons in H. cbn [concat].
  destruct lines as [|l lines].
  - cbn [concat]. rewrite app_nil_r. apply orb_prop in H as [H|H].
    + rewrite <- (app_nil_r line) at 1. now rewrite readlines_closed.
    + now apply readlines_open.
  - apply andb_prop in H as [H1 H2].
    now rewrite readlines_closed, IH.
Qed.

End SynthMore.

(** ** Config Synthesizer: edges *)

Section SynthEdges.

Import Synth.

Lemma strip_prefix_Some_app (p s r b : text) :
  strip_prefix p s = Some r -> strip_prefix p (s ++ b) = Some (r ++ b).
Proof.
  intros H. apply strip_prefix_Some in H. subst s.
  rewrite <- app_assoc. apply strip_prefix_app.
Qed.

Lemma contains_app_r (p a b : text) :
  contains p a = true -> contains p (a ++ b) = true.
Proof.
  induction a as [|c a IH]; intros H.
  - destruct p as [|x p]; [|discriminate].
    now destruct b.
  - rewrite contains_cons in H. rewrite <- app_comm_cons, contains_cons.
    destruct (strip_prefix p (c :: a)) as [r|] eqn:P.
    + rewrite app_comm_cons, (strip_prefix_Some_app _ _ _ b P). reflexivity.
    + rewrite (IH H). now destruct (strip_prefix p (c :: a ++ b)).
Qed.

Lemma absent_no_anchor (lines : list text) :
  contains anchor (concat lines) = false -> no_anchor lines = true.
Proof.
  induction lines as [|l lines IH]; intros H; [reflexivity|].
  cbn [concat] in H. unfold no_anchor. cbn [forallb].
  destruct (contains anchor l) eqn:E.
  - rewrite (contains_app_r _ _ (concat lines) E) in H. discriminate.
  - cbn [negb andb]. apply IH.
    destruct (contains anchor (concat lines)) eqn:C; [|reflexivity].
    rewrite (contains_app_l _ l _ C) in H. discriminate.
Qed.

(** X10.  A document that holds neither [remote:] nor [master:] comes
    back as it is, whatever remotes are missing: the synthesizer writes
    no remote section and no list of its own. *)
Theorem nothing_to_extend (content : text) (new_remotes : dict) :
  contains (str "remote:") content = false ->
  contains (str "master:") content = false ->
  backslash_free (join (str ", ") (keys new_remotes)) = true ->
  generate_new_config content new_remotes = Some content.
Proof.
  intros Hr Hm Hb.
  rewrite generate_new_config_lists by exact Hb.
  rewrite add_remote_blocks_no_anchor, concat_readlines.
  - rewrite (replace_lists_none (str "remote"))
      by now apply count_lists_absent.
    now rewrite replace_lists_none by now apply count_lists_absent.
  - apply absent_no_anchor. now rewrite concat_readlines.
Qed.

Lemma match_list_open (list_name ws body : text) :
  forallb is_space ws = true -> forallb not_rbracket body = true ->
  match_list list_name (list_name ++ str ":" ++ ws ++ str "[" ++ body) =
  Some (list_name ++ str ":" ++ ws ++ str "[" ++ body).
Proof.
  intros Hws Hbody. unfold match_list.
  replace (list_name ++ str ":" ++ ws ++ str "[" ++ body)
    with ((list_name ++ str ":") ++ ws ++ str "[" ++ body)
    by now rewrite <- app_assoc.
  rewrite strip_prefix_app.
  rewrite (span_exact is_space ws (str "[" ++ body))
    by (assumption || reflexivity).
  change (str "[" ++ body) with ("["%char :: body).
  cbv beta iota. change (Ascii.eqb "[" "[") with true. cbv iota.
  rewrite <- (app_nil_r body) at 1.
  rewrite (span_exact not_rbracket body []) by (assumption || exact I).
  now rewrite <- app_assoc.
Qed.

(** X11.  A list that is not closed is lost to the end of the text:
    without a closing bracket the match runs from the name of the list
    to the end of the document, and all of it gives way to the
    replacement. *)
Theorem open_list_replaced_to_end (ids list_name before ws body : text) :
  backslash_free ids = true ->
  none_start list_name (length before)
    (before ++ list_name ++ str ":" ++ ws ++ str "[" ++ body) = true ->
  forallb is_space ws = true ->
  forallb not_rbracket body = true ->
  append_to_list ids list_name
    (before ++ list_name ++ str ":" ++ ws ++ str "[" ++ body) =
  Some (before ++ replacement ids).
Proof.
  intros Hi Hb Hws Hbody.
  rewrite append_to_list_replace by exact Hi. f_equal.
  unfold replace_lists. rewrite sub_from_none_start by exact Hb. f_equal.
  rewrite (sub_from_match list_name _ _
             (list_name ++ str ":" ++ ws ++ str "[" ++ body) []).
  - rewrite expand_literal. cbn [sub_from]. now rewrite app_nil_r.
  - now apply match_list_open.
  - now rewrite app_nil_r.
Qed.

End SynthEdges.

(** ** Config Synthesizer: what stays *)

Section Preservation.

Import Synth.








End Preservation.

(** ** Convergence Driver: what a run writes *)

Section DriverMore.

Import Parser Synth Catalog Driver.

Ltac step :=
  cbn [bind ret stop fail emit api_call fst snd negb app
       get_desired_remotes_from_catalog get_current_remotes_from_config].

(** The run of [main] once the two states are read: every desired
    remote is missing, since the parser finds none. *)
Lemma main_after_reading (e : env) (z : zone) (content : text) :
  incluster_config_loads e = true ->
  xfr e = Some z ->
  knot_conf_file e = Some content ->
  main e =
  match desired_of_zone z with
  | [] => stop Returned
  | _ :: _ =>
      new_knot_conf <-
        match generate_new_config content (desired_of_zone z) with
        | Some c => ret c
        | None => stop Uncaught
        end ;;
      api_call (read_config_map e) StorageWriteFailure ;;;
      api_call (replace_config_map e) StorageWriteFailure ;;;
      emit (ConfigMapReplaced new_knot_conf) ;;;
      api_call (patch_stateful_set e) RestartSignalFailure ;;;
      emit (RestartSignalled (utcnow e))
  end.
Proof.
  intros Hk Hx Hf. unfold main. rewrite Hk, Hx, Hf. step.
  rewrite missing_ids_all.
  destruct (desired_of_zone z) as [|item d] eqn:E; [reflexivity|].
  change (keys (item :: d)) with (fst item :: keys d).
  cbv iota. change (fst item :: keys d) with (keys (item :: d)).
  rewrite restrict_all.
  match goal with |- _ = ?X => destruct X as [evs r] end. reflexivity.
Qed.

(** Before the two states are read the run makes no write. *)
Lemma main_early (e : env) :
  incluster_config_loads e = false \/ xfr e = None \/ knot_conf_file e = None ->
  forall ev, In ev (log e) -> is_write ev = false.
Proof.
  intros H ev. unfold log, main.
  destruct (incluster_config_loads e); step; [|intros []].
  destruct (xfr e) as [z|]; step.
  - destruct (knot_conf_file e) as [content|]; step.
    + destruct H as [H|[H|H]]; discriminate.
    + intros [<-|[]]. reflexivity.
  - intros [<-|[]]. reflexivity.
Qed.

(** X13.  What the driver writes to the ConfigMap is the document that
    the synthesizer makes from the file on disk and all the remotes of
    the catalog, and it is written only when the catalog names a remote
    and reading and replacing the ConfigMap both succeed. *)
Theorem written_document_is_synthesized (e : env) (new_knot_conf : text) :
  In (ConfigMapReplaced new_knot_conf) (log e) ->
  exists z content,
    xfr e = Some z
    /\ knot_conf_file e = Some content
    /\ desired_of_zone z <> []
    /\ generate_new_config content (desired_of_zone z) = Some new_knot_conf
    /\ read_config_map e = ApiOk
    /\ replace_config_map e = ApiOk.
Proof.
  intros H.
  destruct (incluster_config_loads e) eqn:Hk;
    [|apply main_early in H; [discriminate|now left]].
  destruct (xfr e) as [z|] eqn:Hx;
    [|apply main_early in H; [discriminate|right; now left]].
  destruct (knot_conf_file e) as [content|] eqn:Hf;
    [|apply main_early in H; [discriminate|right; now right]].
  exists z, content. unfold log in H.
  rewrite (main_after_reading e z content Hk Hx Hf) in H.
  destruct (desired_of_zone z) as [|item d] eqn:E; [destruct H|].
  destruct (generate_new_config content (item :: d)) as [k|]; step;
    [|destruct H].
  revert H. step.
  destruct (read_config_map e); step; try (intros [H|[]]; discriminate);
    try (intros []).
  destruct (replace_config_map e); step; try (intros [H|[]]; discriminate);
    try (intros []).
  intros H. repeat split; try reflexivity; try discriminate.
  destruct (patch_stateful_set e); revert H; step.
  - intros [H|[H|[]]]; [now injection H as ->|discriminate].
  - intros [H|[H|[]]]; [now injection H as ->|discriminate].
  - intros [H|[]]. now injection H as ->.
Qed.

(** X14.  A restart is signalled only after the ConfigMap is replaced:
    a run that signals a restart has replaced the ConfigMap just before,
    has done nothing else, carries the time of the run and returns. *)
Theorem restart_only_after_write (e : env) (restartedAt : text) :
  In (RestartSignalled restartedAt) (log e) ->
  restartedAt = utcnow e
  /\ patch_stateful_set e = ApiOk
  /\ result e = Returned
  /\ exists new_knot_conf,
       log e = [ConfigMapReplaced new_knot_conf; RestartSignalled restartedAt].
Proof.
  intros H.
  destruct (incluster_config_loads e) eqn:Hk;
    [|apply main_early in H; [discriminate|now left]].
  destruct (xfr e) as [z|] eqn:Hx;
    [|apply main_early in H; [discriminate|right; now left]].
  destruct (knot_conf_file e) as [content|] eqn:Hf;
    [|apply main_early in H; [discriminate|right; now right]].
  unfold log, result in *.
  rewrite (main_after_reading e z content Hk Hx Hf) in *.
  destruct (desired_of_zone z) as [|item d]; [destruct H|].
  destruct (generate_new_config content (item :: d)) as [k|]; step;
    [|destruct H].
  revert H. step.
  destruct (read_config_map e); step; try (intros [H|[]]; discriminate);
    try (intros []).
  destruct (replace_config_map e); step; try (intros [H|[]]; discriminate);
    try (intros []).
  destruct (patch_stateful_set e); step.
  - intros [H|[H|[]]]; [discriminate|]. injection H as <-.
    repeat split. now exists k.
  - intros [H|[H|[]]]; discriminate.
  - intros [H|[]]. discriminate.
Qed.

(** X15.  No rollback: when the ConfigMap is replaced and the restart
    signal is rejected, the run returns with the new document stored
    and the restart annotation as it was. *)
Theorem restart_failure_keeps_new_document (e : env) (new_knot_conf : text) :
  patch_stateful_set e = ApiException ->
  In (ConfigMapReplaced new_knot_conf) (log e) ->
  log e = [ConfigMapReplaced new_knot_conf; Failed RestartSignalFailure]
  /\ result e = Returned
  /\ forall c, cluster_after e c =
               {| cm_knot_conf := new_knot_conf;
                  restarted_at := restarted_at c |}.
Proof.
  intros Hp H.
  assert (L : log e = [ConfigMapReplaced new_knot_conf;
                       Failed RestartSignalFailure]
              /\ result e = Returned).
  { destruct (incluster_config_loads e) eqn:Hk;
      [|apply main_early in H; [discriminate|now left]].
    destruct (xfr e) as [z|] eqn:Hx;
      [|apply main_early in H; [discriminate|right; now left]].
    destruct (knot_conf_file e) as [content|] eqn:Hf;
      [|apply main_early in H; [discriminate|right; now right]].
    unfold log, result in *.
    rewrite (main_after_reading e z content Hk Hx Hf) in *.
    destruct (desired_of_zone z) as [|item d]; [destruct H|].
    destruct (generate_new_config content (item :: d)) as [k|]; step;
      [|destruct H].
    revert H. step.
    destruct (read_config_map e); step; try (intros [H|[]]; discriminate);
      try (intros []).
    destruct (replace_config_map e); step;
      try (intros [H|[]]; discriminate); try (intros []).
    rewrite Hp. step. intros [H|[H|[]]]; [|discriminate].
    injection H as ->. now split. }
  destruct L as [L R]. repeat split; try assumption.
  intros c. unfold cluster_after. rewrite L. reflexivity.
Qed.

(** X16.  Whatever the document on disk holds, a run that meets no
    failure and whose catalog names a remote replaces the ConfigMap
    with the synthesized document and signals a restart: no document
    makes the driver find the configuration up to date. *)
Theorem run_without_failure_writes (e : env) (z : zone)
    (content new_knot_conf : text) :
  incluster_config_loads e = true ->
  xfr e = Some z ->
  knot_conf_file e = Some content ->
  desired_of_zone z <> [] ->
  generate_new_config content (desired_of_zone z) = Some new_knot_conf ->
  read_config_map e = ApiOk ->
  replace_config_map e = ApiOk ->
  patch_stateful_set e = ApiOk ->
  log e = [ConfigMapReplaced new_knot_conf; RestartSignalled (utcnow e)]
  /\ result e = Returned.
Proof.
  intros Hk Hx Hf Hd Hg Hr Hw Hp. unfold log, result.
  rewrite (main_after_reading e z content Hk Hx Hf).
  destruct (desired_of_zone z) as [|item d]; [congruence|].
  rewrite Hg, Hr, Hw, Hp. now split.
Qed.

Lemma mem_In (k : text) (s : list text) : mem k s = true <-> In k s.
Proof.
  unfold mem. rewrite existsb_exists. split.
  - intros (x & Hx & E). apply text_eqb_eq in E. now subst.
  - intros H. exists k. split; [assumption|now apply text_eqb_eq].
Qed.

(** X17.  The remotes handed to the synthesizer are the desired remotes
    whose identifier is not configured, each with its desired address,
    in the order of the catalog; their identifiers are the missing
    identifiers. *)
Theorem remotes_to_add_are_the_missing (desired_remotes : dict)
    (current_remotes : list text) :
  keys (restrict desired_remotes
          (missing_ids desired_remotes current_remotes)) =
    missing_ids desired_remotes current_remotes
  /\ restrict desired_remotes (missing_ids desired_remotes current_remotes) =
       filter (fun item => negb (mem (fst item) current_remotes))
         desired_remotes
  /\ forall k,
       In k (missing_ids desired_remotes current_remotes) <->
       In k (keys desired_remotes) /\ ~ In k current_remotes.
Proof.
  assert (M : forall k,
             In k (missing_ids desired_remotes current_remotes) <->
             In k (keys desired_remotes) /\ ~ In k current_remotes).
  { intros k. unfold missing_ids. rewrite filter_In, negb_true_iff.
    rewrite <- not_true_iff_false, mem_In. reflexivity. }
  assert (R : restrict desired_remotes
                (missing_ids desired_remotes current_remotes) =
              filter (fun item => negb (mem (fst item) current_remotes))
                desired_remotes).
  { unfold restrict. apply filter_ext_in. intros item Hin.
    destruct (mem (fst item) current_remotes) eqn:C; simpl.
    - apply not_true_iff_false. rewrite mem_In, M.
      intros [_ N]. apply N, mem_In, C.
    - apply mem_In, M. split.
      + unfold keys. now apply in_map.
      + rewrite <- mem_In. congruence. }
  split; [|split; assumption].
  rewrite R. clear M R. unfold missing_ids, keys.
  induction desired_remotes as [|item d IH]; [reflexivity|].
  simpl. destruct (mem (fst item) current_remotes); simpl; [|f_equal];
    apply IH.
Qed.

End DriverMore.

(** ** Config Synthesizer: a second insertion, a replaced list *)

Section Passes.

Import Synth.

(** X18.  A second pass over synthesized lines inserts the blocks once
    more: the anchor line is still the first one, and the same blocks
    go in behind it, in front of those of the first pass. *)
Theorem second_pass_inserts_again (pre : list text) (line : text)
    (post : list text) (new_remotes : dict) :
  no_anchor pre = true ->
  contains anchor line = true ->
  add_remote_blocks (add_remote_blocks (pre ++ line :: post) new_remotes)
    new_remotes =
  pre ++ line
    :: blocks_of (rev new_remotes) ++ blocks_of (rev new_remotes) ++ post.
Proof.
  intros Hpre Hline.
  now rewrite !add_remote_blocks_anchor by assumption.
Qed.

(** X19.  A list is not extended, its head is replaced: the first
    match of the list pattern, that is the name of the list, the colon,
    the bracket and the entries up to the closing bracket, gives way to
    the character of code 1, a comma, a space and the identifiers; the
    text in front of it is copied and the substitution goes on at the
    closing bracket. *)
Theorem list_heads_are_replaced (ids list_name before ws body after : text) :
  backslash_free ids = true ->
  none_start list_name (length before)
    (before ++ list_name ++ str ":" ++ ws ++ str "[" ++ body
       ++ str "]" ++ after) = true ->
  forallb is_space ws = true ->
  forallb not_rbracket body = true ->
  append_to_list ids list_name
    (before ++ list_name ++ str ":" ++ ws ++ str "[" ++ body
       ++ str "]" ++ after) =
  option_map
    (fun tail => before ++ ascii_of_nat 1 :: str ", " ++ ids ++ tail)
    (append_to_list ids list_name (str "]" ++ after)).
Proof.
  intros Hi Hb Hws Hbody.
  rewrite !append_to_list_replace by exact Hi. cbn [option_map]. f_equal.
  unfold replace_lists. rewrite sub_from_none_start by exact Hb. f_equal.
  rewrite (sub_from_match list_name _ _
             (list_name ++ str ":" ++ ws ++ str "[" ++ body)
             (str "]" ++ after)).
  - rewrite expand_literal. unfold replacement.
    now repeat (rewrite <- app_assoc; try rewrite <- app_comm_cons).
  - now apply match_list_directive.
  - now repeat (rewrite <- app_assoc; try rewrite <- app_comm_cons).
Qed.

End Passes.

(** ** The further statements at sample inputs *)

Section MoreWitnesses.

Import Parser Synth Catalog Driver.

(** X2 at the sample catalog. *)
Lemma desired_from_members_witness :
  In (str "catalog-primary-remote", str "site-catalog-primary.dns.internal")
     (desired_of_zone Sample.catalog)
  /\ exists zone_name,
       member_of Sample.catalog zone_name
       /\ str "catalog-primary-remote" = first_label zone_name ++ str "-remote"
       /\ str "site-catalog-primary.dns.internal" =
            str "site-" ++ first_label zone_name ++ str ".dns.internal".
Proof.
  split; [vm_compute; left; reflexivity|].
  apply (desired_from_members Sample.catalog).
  vm_compute. left. reflexivity.
Defined.

(** X3 at the member zone of the sample catalog. *)
Lemma members_are_desired_witness :
  member_of Sample.catalog Cases.member
  /\ In (first_label Cases.member ++ str "-remote",
         str "site-" ++ first_label Cases.member ++ str ".dns.internal")
        (desired_of_zone Sample.catalog).
Proof.
  assert (M : member_of Sample.catalog Cases.member).
  { exists (fst Cases.member_node), (snd Cases.member_node),
      {| rdtype := PTR; items := [Cases.member] |}.
    repeat split.
    - right. right. left. reflexivity.
    - left. reflexivity.
    - left. reflexivity. }
  split; [exact M|]. apply (members_are_desired Sample.catalog Cases.member M).
Defined.

(** X4 at the apex node of the sample catalog. *)
Lemma skipped_nodes_witness :
  reserved (str "@") || no_ptr [] = true
  /\ desired_of_zone ([] ++ (str "@", []) :: [Cases.member_node]) =
     desired_of_zone ([] ++ [Cases.member_node]).
Proof.
  split; [reflexivity|].
  apply (skipped_nodes [] [Cases.member_node] (str "@") []). reflexivity.
Defined.

(** X5 at two zones of two parents with the first label [east]. *)
Lemma same_label_one_entry_witness :
  first_label (str "east.internal.dns.") = first_label (str "east.lab.dns.")
  /\ fold_left add_item [str "east.internal.dns."; str "east.lab.dns."] [] =
     fold_left add_item [str "east.internal.dns."] [].
Proof.
  split; [reflexivity|].
  apply (same_label_one_entry [] (str "east.internal.dns.")
           (str "east.lab.dns.")). reflexivity.
Defined.

(** X6 at a remote section with one entry. *)
Lemma section_ends_at_first_key_witness :
  contains (str "remote:") (str "server:" ++ str "remote") = false
  /\ search_remote_section
       (str "server:" ++ str "remote:" ++ (nl :: str "  - ") ++ str "id"
          ++ str ":" ++ str " hub-remote") = Some (nl :: str "  - ").
Proof.
  split; [reflexivity|].
  apply (section_ends_at_first_key (str "server:") (nl :: str "  - ")
           (str "id") (str " hub-remote"));
    [reflexivity | reflexivity | discriminate | reflexivity].
Defined.

(** X7 at two lines. *)
Lemma findall_ids_reads_lines_witness :
  forallb is_token [str "east-remote"; str "west-remote"] = true
  /\ findall_ids
       (concat (map (id_line (str "  "))
                  [str "east-remote"; str "west-remote"])) =
     [str "east-remote"; str "west-remote"].
Proof.
  split; [reflexivity|].
  apply (findall_ids_reads_lines (str "  ")
           [str "east-remote"; str "west-remote"]); reflexivity.
Defined.

(** X9 at the lines of the sample configuration. *)
Lemma readlines_of_joined_lines_witness :
  proper_lines (Sample.head_lines ++ Sample.anchor_line :: Sample.tail_lines)
    = true
  /\ readlines
       (concat (Sample.head_lines ++ Sample.anchor_line :: Sample.tail_lines))
     = Sample.head_lines ++ Sample.anchor_line :: Sample.tail_lines.
Proof.
  split; [reflexivity|].
  apply (readlines_of_joined_lines
           (Sample.head_lines ++ Sample.anchor_line :: Sample.tail_lines)).
  reflexivity.
Defined.

(** X10 at a configuration with a server section only. *)
Lemma nothing_to_extend_witness :
  contains (str "remote:") Cases.bare_conf = false
  /\ contains (str "master:") Cases.bare_conf = false
  /\ generate_new_config Cases.bare_conf Sample.two_remotes =
     Some Cases.bare_conf.
Proof.
  split; [reflexivity|]. split; [reflexivity|].
  apply (nothing_to_extend Cases.bare_conf Sample.two_remotes); reflexivity.
Defined.

(** X11 at a template whose list is cut off. *)
Lemma open_list_replaced_to_end_witness :
  none_start (str "master") (length (str "template: "))
    (str "template: " ++ str "master" ++ str ":" ++ str " " ++ str "["
       ++ str "hub-remote") = true
  /\ append_to_list (str "east-remote") (str "master")
       (str "template: " ++ str "master" ++ str ":" ++ str " " ++ str "["
          ++ str "hub-remote") =
     Some (str "template: " ++ Cases.soh :: str ", east-remote").
Proof.
  split; [reflexivity|].
  apply (open_list_replaced_to_end (str "east-remote") (str "master")
           (str "template: ") (str " ") (str "hub-remote")); reflexivity.
Defined.

(** X13 at the run on the sample configuration. *)
Lemma written_document_is_synthesized_witness :
  In (ConfigMapReplaced Cases.written)
     (log (Sample.calm Sample.catalog Sample.knot_conf))
  /\ exists z content,
       xfr (Sample.calm Sample.catalog Sample.knot_conf) = Some z
       /\ knot_conf_file (Sample.calm Sample.catalog Sample.knot_conf) =
            Some content
       /\ desired_of_zone z <> []
       /\ generate_new_config content (desired_of_zone z) = Some Cases.written
       /\ read_config_map (Sample.calm Sample.catalog Sample.knot_conf) = ApiOk
       /\ replace_config_map (Sample.calm Sample.catalog Sample.knot_conf) =
            ApiOk.
Proof.
  assert (H : In (ConfigMapReplaced Cases.written)
                (log (Sample.calm Sample.catalog Sample.knot_conf)))
    by (vm_compute; left; reflexivity).
  split; [exact H|].
  apply (written_document_is_synthesized
           (Sample.calm Sample.catalog Sample.knot_conf) Cases.written H).
Defined.

(** X14 at the run on the sample configuration. *)
Lemma restart_only_after_write_witness :
  In (RestartSignalled (str "2024-05-01T00:00:00"))
     (log (Sample.calm Sample.catalog Sample.knot_conf))
  /\ patch_stateful_set (Sample.calm Sample.catalog Sample.knot_conf) = ApiOk
  /\ result (Sample.calm Sample.catalog Sample.knot_conf) = Returned.
Proof.
  assert (H : In (RestartSignalled (str "2024-05-01T00:00:00"))
                (log (Sample.calm Sample.catalog Sample.knot_conf)))
    by (vm_compute; right; left; reflexivity).
  split; [exact H|].
  destruct (restart_only_after_write
              (Sample.calm Sample.catalog Sample.knot_conf)
              (str "2024-05-01T00:00:00") H) as (_ & P & R & _).
  split; assumption.
Defined.

(** X15 at the run whose restart signal is rejected. *)
Lemma restart_failure_keeps_new_document_witness :
  In (ConfigMapReplaced Cases.written) (log Cases.restart_rejected)
  /\ cluster_after Cases.restart_rejected Cases.cluster_before =
     {| cm_knot_conf := Cases.written; restarted_at := None |}.
Proof.
  assert (H : In (ConfigMapReplaced Cases.written)
                (log Cases.restart_rejected))
    by (vm_compute; left; reflexivity).
  split; [exact H|].
  destruct (restart_failure_keeps_new_document Cases.restart_rejected
              Cases.written eq_refl H) as (_ & _ & C).
  apply (C Cases.cluster_before).
Defined.

(** X16 at the run on the sample configuration. *)
Lemma run_without_failure_writes_witness :
  desired_of_zone Sample.catalog <> []
  /\ log (Sample.calm Sample.catalog Sample.knot_conf) =
     [ConfigMapReplaced Cases.written;
      RestartSignalled (str "2024-05-01T00:00:00")].
Proof.
  assert (D : desired_of_zone Sample.catalog <> [])
    by (vm_compute; discriminate).
  split; [exact D|].
  apply (run_without_failure_writes
           (Sample.calm Sample.catalog Sample.knot_conf) Sample.catalog
           Sample.knot_conf Cases.written eq_refl eq_refl eq_refl D);
    reflexivity.
Defined.

(** X18 at the lines of the sample configuration. *)
Lemma second_pass_inserts_again_witness :
  no_anchor Sample.head_lines = true
  /\ add_remote_blocks
       (add_remote_blocks
          (Sample.head_lines ++ Sample.anchor_line :: Sample.tail_lines)
          Sample.two_remotes)
       Sample.two_remotes =
     Sample.head_lines
       ++ Sample.anchor_line
       :: blocks_of (rev Sample.two_remotes)
       ++ blocks_of (rev Sample.two_remotes) ++ Sample.tail_lines.
Proof.
  split; [reflexivity|].
  apply (second_pass_inserts_again Sample.head_lines Sample.anchor_line
           Sample.tail_lines Sample.two_remotes); reflexivity.
Defined.

(** X19 at the access list of the sample configuration, which stands
    behind the header of the remote section. *)
Lemma list_heads_are_replaced_witness :
  Cases.before_remote_list ++ str "remote" ++ str ":" ++ str " " ++ str "["
    ++ str "hub-remote" ++ str "]" ++ Cases.behind_remote_list =
    Sample.knot_conf
  /\ none_start (str "remote") (length Cases.before_remote_list)
       Sample.knot_conf = true
  /\ append_to_list (str "east-remote") (str "remote") Sample.knot_conf =
     option_map
       (fun tail =>
          Cases.before_remote_list
            ++ ascii_of_nat 1 :: str ", " ++ str "east-remote" ++ tail)
       (append_to_list (str "east-remote") (str "remote")
          (str "]" ++ Cases.behind_remote_list)).
Proof.
  split; [reflexivity|]. split; [reflexivity|].
  apply (list_heads_are_replaced (str "east-remote") (str "remote")
           Cases.before_remote_list (str " ") (str "hub-remote")
           Cases.behind_remote_list); reflexivity.
Defined.

End MoreWitnesses.
